(** * Customer 360: identity resolution and profile conflict resolution

    A shallow embedding of the class [HolisticCustomerProfileAggregator]:
    the weighted vote of [#establishConsensusIdentity], the identity-graph
    construction of [#resolveCustomerIdentity] and the resolution loop of
    [#resolveProfileConflicts].

    Conventions of the embedding.
    - An [async] method is a function into [Outcome]: [Ok v] is a promise
      fulfilled with [v], [Throw e] a promise rejected with [e]; [x ← p; k]
      awaits [p] and continues with [k].
    - JavaScript numbers are read twice.  The first reading idealises: a
      finite double is an exact rational ([Num q]), and [NaN] is kept because
      [undefined * x] produces it.  It serves the statements in which
      rounding plays no part: which entries the vote map has and what they
      record, when a total is [NaN], whether a call returns.  Which identity
      wins the vote depends on the totals the engine holds, rounded and
      possibly infinite, so the vote is read a second time in an arbitrary
      [Arithmetic], of which [doubleArithmetic] computes in binary64.
    - Classes and private methods that the class uses but does not define are
      parameters, bundled in records ([IdentityCollaborators],
      [ConflictCollaborators]) and in the class [IdentityGraphOps]. *)

From Stdlib Require Import QArith Qabs Lqa.
From Stdlib Require Import Floats.PrimFloat Numbers.Cyclic.Int63.Uint63.
From stdpp Require Import gmap strings list.

Local Open Scope string_scope.
Local Open Scope list_scope.

(** ** Outcomes of asynchronous calls *)

(** What a call can be rejected with: the runtime's [TypeError], the three
    errors of the specification's taxonomy (section 7), or anything else a
    collaborator throws. *)
Inductive JSError : Type :=
  | TypeError
  | NoIdentityEvidenceError
  | DanglingReferenceError
  | StrategyMismatchError
  | OtherError (reason : string).

Inductive Outcome (A : Type) : Type :=
  | Ok (value : A)
  | Throw (error : JSError).

Arguments Ok {A} value.
Arguments Throw {A} error.

Definition await {A B : Type} (p : Outcome A) (k : A -> Outcome B) : Outcome B :=
  match p with
  | Ok v => k v
  | Throw e => Throw e
  end.

(** [x ← p; k] reads [const x = await p; k]. *)
#[global] Instance outcome_bind : MBind Outcome := fun _ _ k p => await p k.

Definition fulfilled {A : Type} (p : Outcome A) : Prop := exists v, p = Ok v.
Definition rejected {A : Type} (p : Outcome A) : Prop := exists e, p = Throw e.

(** A [for ... of] loop whose body awaits: the first rejection leaves the loop. *)
Fixpoint forOf {S A : Type} (body : S -> A -> Outcome S) (items : list A) (s : S)
  : Outcome S :=
  match items with
  | [] => Ok s
  | x :: rest => s' ← body s x; forOf body rest s'
  end.

(** [Promise.all]: fulfilled with every value, in array order, when every
    promise is fulfilled; rejected as soon as one promise is rejected.  Which
    rejection comes first is a matter of timing; the model reports the first
    one in array order. *)
Fixpoint promiseAll {A : Type} (promises : list (Outcome A)) : Outcome (list A) :=
  match promises with
  | [] => Ok []
  | p :: rest => v ← p; vs ← promiseAll rest; Ok (v :: vs)
  end.

(** ** JavaScript numbers *)

Inductive JSNum : Type :=
  | Num (q : Q)
  | NaN.

Definition addNum (a b : JSNum) : JSNum :=
  match a, b with
  | Num p, Num q => Num (p + q)
  | _, _ => NaN
  end.

Definition subNum (a b : JSNum) : JSNum :=
  match a, b with
  | Num p, Num q => Num (p - q)
  | _, _ => NaN
  end.

(** [weight * confidence] where [weight] was read from an array: an index
    past the end reads [undefined], and [undefined * x] is [NaN]. *)
Definition mulWeight (weight : option Q) (x : Q) : JSNum :=
  match weight with
  | Some w => Num (w * x)
  | None => NaN
  end.

(** The test [v > 0] that [Array.prototype.sort] applies to the value a
    comparator returns ([NaN] counts as [+0]). *)
Definition isPositive (v : JSNum) : bool :=
  match v with
  | Num q => negb (Qle_bool q 0)
  | NaN => false
  end.

Definition numValue (v : JSNum) : Q :=
  match v with
  | Num q => q
  | NaN => 0%Q
  end.


(** ** Identity claims *)

Definition IdentityKey : Type := string.
Definition SourceTag : Type := string.
Definition RelationshipKind : Type := string.
Definition TimeRange : Type := (Z * Z)%type.

(** The [metadata] object a strategy attaches to a candidate identity. *)
Record ClaimMetadata : Type := {
  source : SourceTag;
  relationship : RelationshipKind;
  confidence : Q;
  temporalScope : TimeRange
}.

(** One strategy's result; [identities] is iterated as [identity, metadata]
    pairs. *)
Record Resolution : Type := {
  identities : list (IdentityKey * ClaimMetadata)
}.

(** ** The vote map of [#establishConsensusIdentity]

    [identityVotes] is a JavaScript [Map]: it iterates in insertion order and
    [set] on a present key keeps the key's position. *)

Record Vote : Type := {
  totalWeight : JSNum;
  sources : list SourceTag
}.

Definition VoteMap : Type := list (IdentityKey * Vote).

Fixpoint mapGet (m : VoteMap) (k : IdentityKey) : option Vote :=
  match m with
  | [] => None
  | (k', v) :: m' => if String.eqb k k' then Some v else mapGet m' k
  end.

Fixpoint mapSet (m : VoteMap) (k : IdentityKey) (v : Vote) : VoteMap :=
  match m with
  | [] => [(k, v)]
  | (k', v') :: m' =>
      if String.eqb k k' then (k, v) :: m' else (k', v') :: mapSet m' k v
  end.

Definition freshVote : Vote := {| totalWeight := Num 0; sources := [] |}.

(** Body of the inner loop (lines 77-80). *)
Definition castVote (weight : option Q) (identityVotes : VoteMap)
    (claim : IdentityKey * ClaimMetadata) : VoteMap :=
  let '(identity, metadata) := claim in
  let currentVote := default freshVote (mapGet identityVotes identity) in
  mapSet identityVotes identity
    {| totalWeight :=
         addNum (totalWeight currentVote) (mulWeight weight (confidence metadata));
       sources := sources currentVote ++ [source metadata] |}.

(** The outer loop (lines 72-82), started at strategy index [i]. *)
Fixpoint tallyFrom (i : nat) (confidenceWeights : list Q)
    (resolutionResults : list Resolution) (identityVotes : VoteMap) : VoteMap :=
  match resolutionResults with
  | [] => identityVotes
  | resolution :: rest =>
      let weight := nth_error confidenceWeights i in
      tallyFrom (S i) confidenceWeights rest
        (fold_left (castVote weight) (identities resolution) identityVotes)
  end.

Definition identityVotes (confidenceWeights : list Q)
    (resolutionResults : list Resolution) : VoteMap :=
  tallyFrom 0 confidenceWeights resolutionResults [].

(** The comparator [(a, b) => b[1].totalWeight - a[1].totalWeight]. *)
Definition byDescendingWeight (a b : IdentityKey * Vote) : JSNum :=
  subNum (totalWeight (snd b)) (totalWeight (snd a)).

(** [Array.prototype.sort] is stable (ECMAScript 2019): [b] moves in front of
    an earlier [a] only when the comparator is positive on [(a, b)].  A stable
    insertion sort has exactly that result for a consistent comparator. *)
Section StableSort.
Context {A : Type} (compareFn : A -> A -> JSNum).

Fixpoint insertSorted (x : A) (sorted : list A) : list A :=
  match sorted with
  | [] => [x]
  | y :: rest =>
      if isPositive (compareFn x y) then y :: insertSorted x rest
      else x :: sorted
  end.

Fixpoint sortStable (l : list A) : list A :=
  match l with
  | [] => []
  | x :: rest => insertSorted x (sortStable rest)
  end.
End StableSort.

(** [Array.from(identityVotes.entries()).sort(...).slice(0, 1)[0][0]]: with no
    entry, [slice(0, 1)[0]] is [undefined] and indexing it throws a
    [TypeError]. *)
Definition highestVoted (votes : VoteMap) : Outcome IdentityKey :=
  match firstn 1 (sortStable byDescendingWeight votes) with
  | entry :: _ => Ok (fst entry)
  | [] => Throw TypeError
  end.

(** ** The identity graph, as the resolver uses it

    [#resolveCustomerIdentity] talks to a [CustomerIdentityGraph] object
    through two methods.  The object is mutated in place; the embedding
    threads the graph value through the calls. *)

Record NodeMetadata : Type := {
  nodeSource : SourceTag;
  nodeConfidence : Q
}.

Record EdgeMetadata : Type := {
  edgeRelationship : RelationshipKind;
  edgeConfidence : Q;
  temporalValidity : TimeRange
}.

Class IdentityGraphOps (G : Type) : Type := {
  newGraph : G;
  addIdentityNode : G -> IdentityKey -> NodeMetadata -> Outcome G;
  addIdentityEdge : G -> IdentityKey -> IdentityKey -> EdgeMetadata -> Outcome G
}.

(** ** Collaborators of the identity resolver

    Private methods called by [#resolveCustomerIdentity] and
    [#establishConsensusIdentity] whose bodies are not part of the class, over
    raw data of type [D]. *)
Record IdentityCollaborators (D G Attrs : Type) : Type := {
  resolveByEmailFingerprint : D -> Outcome Resolution;
  resolveByDeviceGraph : D -> Outcome Resolution;
  resolveByBehavioralPatterns : D -> Outcome Resolution;
  resolveByTransactionalHistory : D -> Outcome Resolution;
  calculateResolutionWeights : list Resolution -> Outcome (list Q);
  generateMasterCustomerId : IdentityKey -> Outcome string;
  calculateOverallResolutionConfidence : G -> Outcome JSNum;
  extractIdentityAttributes : IdentityKey -> Outcome Attrs
}.

Arguments resolveByEmailFingerprint {D G Attrs} _ _.
Arguments resolveByDeviceGraph {D G Attrs} _ _.
Arguments resolveByBehavioralPatterns {D G Attrs} _ _.
Arguments resolveByTransactionalHistory {D G Attrs} _ _.
Arguments calculateResolutionWeights {D G Attrs} _ _.
Arguments generateMasterCustomerId {D G Attrs} _ _.
Arguments calculateOverallResolutionConfidence {D G Attrs} _ _.
Arguments extractIdentityAttributes {D G Attrs} _ _.

Record DataStreams (D : Type) : Type := {
  emailData : D;
  deviceData : D;
  behavioralData : D;
  transactionData : D
}.

Arguments emailData {D} _.
Arguments deviceData {D} _.
Arguments behavioralData {D} _.
Arguments transactionData {D} _.

Record ResolvedIdentity (G Attrs : Type) : Type := {
  masterCustomerId : string;
  identityGraph : G;
  resolutionConfidence : JSNum;
  identityAttributes : Attrs
}.

Arguments masterCustomerId {G Attrs} _.
Arguments identityGraph {G Attrs} _.
Arguments resolutionConfidence {G Attrs} _.
Arguments identityAttributes {G Attrs} _.

Section IdentityResolution.
Context {D G Attrs : Type} `{IdentityGraphOps G}.
Variable this : IdentityCollaborators D G Attrs.

Definition establishConsensusIdentity
    (resolutionResults : list Resolution) : Outcome IdentityKey :=
  confidenceWeights ← calculateResolutionWeights this resolutionResults;
  highestVoted (identityVotes confidenceWeights resolutionResults).

(** The four strategy calls pushed on [resolutionPromises] (lines 33-38). *)
Definition resolutionPromises (dataStreams : DataStreams D)
  : list (Outcome Resolution) :=
  [ resolveByEmailFingerprint this (emailData dataStreams);
    resolveByDeviceGraph this (deviceData dataStreams);
    resolveByBehavioralPatterns this (behavioralData dataStreams);
    resolveByTransactionalHistory this (transactionData dataStreams) ].

(** The edge requested for one claim (lines 48-56). *)
Definition linkClaim (initialIdentifier : IdentityKey) (graph : G)
    (claim : IdentityKey * ClaimMetadata) : Outcome G :=
  let '(identity, metadata) := claim in
  addIdentityEdge graph initialIdentifier identity
    {| edgeRelationship := relationship metadata;
       edgeConfidence := confidence metadata;
       temporalValidity := temporalScope metadata |}.

(** Lines 44-58: the graph calls, on the graph created at line 29. *)
Definition buildIdentityGraph (initialIdentifier : IdentityKey)
    (resolutionResults : list Resolution) : Outcome G :=
  graph ← addIdentityNode newGraph initialIdentifier
            {| nodeSource := "initial"; nodeConfidence := 1 |};
  forOf (fun graph resolution =>
           forOf (linkClaim initialIdentifier) (identities resolution) graph)
        resolutionResults graph.

Definition resolveCustomerIdentity (dataStreams : DataStreams D)
    (initialIdentifier : IdentityKey) : Outcome (ResolvedIdentity G Attrs) :=
  resolutionResults ← promiseAll (resolutionPromises dataStreams);
  consensusIdentity ← establishConsensusIdentity resolutionResults;
  graph ← buildIdentityGraph initialIdentifier resolutionResults;
  master ← generateMasterCustomerId this consensusIdentity;
  overall ← calculateOverallResolutionConfidence this graph;
  attributes ← extractIdentityAttributes this consensusIdentity;
  Ok {| masterCustomerId := master;
        identityGraph := graph;
        resolutionConfidence := overall;
        identityAttributes := attributes |}.
End IdentityResolution.

(** ** The identity graph of the specification

    The class [CustomerIdentityGraph] is not defined in the repository; its
    data and its two methods follow sections 3 and 4.1 of the specification:
    at most one node per identity, edges kept in the order they were added. *)

Record IdentityNode : Type := {
  originSources : list SourceTag;
  nodeConf : Q
}.

Record IdentityEdge : Type := {
  edgeFrom : IdentityKey;
  edgeTo : IdentityKey;
  edgeData : EdgeMetadata
}.

Record CustomerIdentityGraph : Type := {
  graphNodes : gmap IdentityKey IdentityNode;
  graphEdges : list IdentityEdge
}.

Definition emptyGraph : CustomerIdentityGraph :=
  {| graphNodes := ∅; graphEdges := [] |}.

Definition hasNode (g : CustomerIdentityGraph) (identity : IdentityKey) : bool :=
  bool_decide (is_Some (graphNodes g !! identity)).

(** Modelled from the spec: the class [CustomerIdentityGraph] is not defined
    in the repository.  Section 4.1: re-adding an identity keeps "the higher
    confidence" and records "the additional originSource"; a source already
    recorded is not recorded twice (addNode is "idempotent"). *)
Definition mergeNode (existing : IdentityNode) (metadata : NodeMetadata)
  : IdentityNode :=
  {| originSources :=
       if bool_decide (nodeSource metadata ∈ originSources existing)
       then originSources existing
       else originSources existing ++ [nodeSource metadata];
     nodeConf :=
       if Qle_bool (nodeConf existing) (nodeConfidence metadata)
       then nodeConfidence metadata else nodeConf existing |}.

(** Modelled from the spec: the class [CustomerIdentityGraph] is not defined
    in the repository.  Section 4.1: addNode "inserts or, if identity already
    exists, merges metadata by keeping the higher confidence and recording
    the additional originSource". *)
Definition specAddNode (g : CustomerIdentityGraph) (identity : IdentityKey)
    (metadata : NodeMetadata) : Outcome CustomerIdentityGraph :=
  let node :=
    match graphNodes g !! identity with
    | Some existing => mergeNode existing metadata
    | None => {| originSources := [nodeSource metadata];
                 nodeConf := nodeConfidence metadata |}
    end in
  Ok {| graphNodes := <[identity := node]> (graphNodes g);
        graphEdges := graphEdges g |}.

(** Modelled from the spec: the class [CustomerIdentityGraph] is not defined
    in the repository.  Section 4.1: addEdge "fails with
    DanglingReferenceError if either endpoint is absent.  Appends a new edge;
    does not deduplicate". *)
Definition specAddEdge (g : CustomerIdentityGraph) (from to : IdentityKey)
    (metadata : EdgeMetadata) : Outcome CustomerIdentityGraph :=
  if hasNode g from && hasNode g to
  then Ok {| graphNodes := graphNodes g;
             graphEdges := graphEdges g ++
               [{| edgeFrom := from; edgeTo := to; edgeData := metadata |}] |}
  else Throw DanglingReferenceError.

#[global] Instance specGraphOps : IdentityGraphOps CustomerIdentityGraph := {
  newGraph := emptyGraph;
  addIdentityNode := specAddNode;
  addIdentityEdge := specAddEdge
}.

(** No dangling edge: both endpoints of every edge are nodes. *)
Definition wellFormed (g : CustomerIdentityGraph) : Prop :=
  Forall (fun e => hasNode g (edgeFrom e) = true /\ hasNode g (edgeTo e) = true)
         (graphEdges g).

(** A call on the graph, and the run of a sequence of calls. *)
Inductive GraphCall : Type :=
  | AddNode (identity : IdentityKey) (metadata : NodeMetadata)
  | AddEdge (from to : IdentityKey) (metadata : EdgeMetadata).

Definition runCall (g : CustomerIdentityGraph) (call : GraphCall)
  : Outcome CustomerIdentityGraph :=
  match call with
  | AddNode identity metadata => addIdentityNode g identity metadata
  | AddEdge from to metadata => addIdentityEdge g from to metadata
  end.

(** Every identity that some strategy claims. *)
Definition allClaims (resolutionResults : list Resolution)
  : list (IdentityKey * ClaimMetadata) :=
  concat (map identities resolutionResults).

Definition claimed (resolutionResults : list Resolution) (k : IdentityKey) : Prop :=
  In k (map fst (allClaims resolutionResults)).

(** ** Profile conflicts *)

Definition DimensionName : Type := string.
Definition AttributeName : Type := string.

Inductive Value : Type :=
  | VText (s : string)
  | VNumber (q : Q).

Record Candidate : Type := {
  value : Value;
  candidateSource : SourceTag;
  observedAt : Z;
  sourceReliability : Q
}.

Record Conflict : Type := {
  description : string;
  attribute : AttributeName;
  candidates : list Candidate
}.

(** What a resolver's [resolve] returns. *)
Record StrategyResolution : Type := {
  resolvedValue : Value;
  explanation : string;
  resolvedConfidence : Q
}.

(** An entry pushed on [resolutionLog] (lines 135-141). *)
Record LogEntry : Type := {
  logDimension : DimensionName;
  logConflict : string;
  logStrategy : string;
  logResolution : string;
  logConfidence : Q
}.

Record ConflictResolution : Type := {
  resolvedProfile : gmap DimensionName Value;
  resolutionLog : list LogEntry;
  remainingConflicts : list Conflict
}.

(** The detector class, the four resolver classes and
    [#selectResolutionStrategy] are used by [#resolveProfileConflicts] but
    not defined in the repository; [P] is the type of [profileDimensions]. *)
Record ConflictCollaborators (P : Type) : Type := {
  detectConflicts : P -> Outcome (list (DimensionName * list Conflict));
  detectRemainingConflicts : gmap DimensionName Value -> Outcome (list Conflict);
  selectResolutionStrategy : Conflict -> Outcome string;
  temporalRecencyResolve : Conflict -> Outcome StrategyResolution;
  sourceReliabilityResolve : Conflict -> Outcome StrategyResolution;
  statisticalConsensusResolve : Conflict -> Outcome StrategyResolution;
  contextualPlausibilityResolve : Conflict -> Outcome StrategyResolution
}.

Arguments detectConflicts {P} _ _.
Arguments detectRemainingConflicts {P} _ _.
Arguments selectResolutionStrategy {P} _ _.
Arguments temporalRecencyResolve {P} _ _.
Arguments sourceReliabilityResolve {P} _ _.
Arguments statisticalConsensusResolve {P} _ _.
Arguments contextualPlausibilityResolve {P} _ _.

(** The assignment [resolvedProfile[dimension] = value] of line 134, on the
    object literal of line 126, whose own properties the map holds.  The
    assignment writes an own property, also under a name that
    [Object.prototype] has ("constructor", "toString"), except under the
    name "__proto__": that name is an accessor of [Object.prototype], and
    its setter stores no property. *)
Definition assignProperty (object : gmap DimensionName Value)
    (name : DimensionName) (value : Value) : gmap DimensionName Value :=
  if String.eqb name "__proto__" then object else <[name := value]> object.

Section ConflictResolver.
Context {P : Type}.
Variable this : ConflictCollaborators P.

(** The object literal [resolutionStrategies] (lines 119-124), read by
    key: any other key reads [undefined]. *)
Definition resolutionStrategies (key : string)
  : option (Conflict -> Outcome StrategyResolution) :=
  if String.eqb key "temporal_recency" then Some (temporalRecencyResolve this)
  else if String.eqb key "source_reliability" then Some (sourceReliabilityResolve this)
  else if String.eqb key "statistical_consensus" then Some (statisticalConsensusResolve this)
  else if String.eqb key "contextual_plausibility" then Some (contextualPlausibilityResolve this)
  else None.

Definition ResolverState : Type := (gmap DimensionName Value * list LogEntry)%type.

(** Body of the inner loop (lines 131-141); calling [resolve] on
    [undefined] throws a [TypeError]. *)
Definition resolveOne (dimension : DimensionName) (state : ResolverState)
    (conflict : Conflict) : Outcome ResolverState :=
  resolutionStrategy ← selectResolutionStrategy this conflict;
  resolution ← match resolutionStrategies resolutionStrategy with
               | Some resolve => resolve conflict
               | None => Throw TypeError
               end;
  Ok (assignProperty (fst state) dimension (resolvedValue resolution),
      snd state ++ [{| logDimension := dimension;
                       logConflict := description conflict;
                       logStrategy := resolutionStrategy;
                       logResolution := explanation resolution;
                       logConfidence := resolvedConfidence resolution |}]).

Definition resolveDimension (state : ResolverState)
    (entry : DimensionName * list Conflict) : Outcome ResolverState :=
  forOf (resolveOne (fst entry)) (snd entry) state.

Definition resolveProfileConflicts (profileDimensions : P)
  : Outcome ConflictResolution :=
  detectedConflicts ← detectConflicts this profileDimensions;
  state ← forOf resolveDimension detectedConflicts (∅, []);
  remaining ← detectRemainingConflicts this (fst state);
  Ok {| resolvedProfile := fst state;
        resolutionLog := snd state;
        remainingConflicts := remaining |}.
End ConflictResolver.

(** The detected conflicts in the order the two loops visit them. *)
Definition visitOrder (detectedConflicts : list (DimensionName * list Conflict))
  : list (DimensionName * Conflict) :=
  concat (map (fun entry => map (pair (fst entry)) (snd entry)) detectedConflicts).

(** ** The conflict detector of the specification

    The class [ProfileConflictDetectionEngine] is not defined in the
    repository; detection follows section 4.3 of the specification. *)

Definition Profile : Type :=
  list (DimensionName * list (AttributeName * list Candidate)).

(** Exact equality for categorical values, a tolerance band for numbers. *)
Definition sameValue (tolerance : Q) (a b : Value) : bool :=
  match a, b with
  | VText s, VText t => String.eqb s t
  | VNumber p, VNumber q => Qle_bool (Qabs (p - q)) tolerance
  | _, _ => false
  end.

(** The values of a candidate list, each kept once. *)
Fixpoint distinctValues (tolerance : Q) (vs : list Value) : list Value :=
  match vs with
  | [] => []
  | v :: rest =>
      v :: filter (fun w => sameValue tolerance v w = false)
             (distinctValues tolerance rest)
  end.

Definition isConflict (tolerance : Q) (cands : list Candidate) : bool :=
  Nat.ltb 1 (length (distinctValues tolerance (map value cands))).

(** The conflict reported for an attribute: it lists every candidate and is
    described by the attribute's name. *)
Definition conflictOf (a : AttributeName * list Candidate) : Conflict :=
  {| description := fst a; attribute := fst a; candidates := snd a |}.

(** Modelled from the spec: the class [ProfileConflictDetectionEngine] is not
    defined in the repository.  Section 4.3: "For each attribute, if the
    distinct values number more than one, it emits an AttributeConflict
    listing every candidate". *)
Definition specDetectDimension (tolerance : Q)
    (attributes : list (AttributeName * list Candidate)) : list Conflict :=
  map conflictOf
      (filter (fun a => isConflict tolerance (snd a) = true) attributes).

(** Modelled from the spec: the class [ProfileConflictDetectionEngine] is not
    defined in the repository.  Section 4.3: the detector "scans a profile
    structured as mapping DimensionName -> mapping AttributeName -> sequence
    of (value, source, observedAt)"; the result lists each dimension with its
    conflicts, in the profile's order. *)
Definition specDetectConflicts (tolerance : Q) (profile : Profile)
  : Outcome (list (DimensionName * list Conflict)) :=
  Ok (map (fun d => (fst d, specDetectDimension tolerance (snd d))) profile).

(** ** The accumulated vote, as the specification words it

    "The sum over all claims for that key of strategyWeight[i] *
    claim.confidence", strategy [i] being the [i]-th result. *)

Definition strategyWeight (confidenceWeights : list Q) (i : nat) : Q :=
  nth i confidenceWeights 0%Q.

Fixpoint claimSum (weight : Q) (claims : list (IdentityKey * ClaimMetadata))
    (key : IdentityKey) : Q :=
  match claims with
  | [] => 0
  | (identity, metadata) :: rest =>
      if String.eqb key identity
      then (weight * confidence metadata + claimSum weight rest key)%Q
      else claimSum weight rest key
  end.

Fixpoint accumulatedVoteFrom (i : nat) (confidenceWeights : list Q)
    (resolutionResults : list Resolution) (key : IdentityKey) : Q :=
  match resolutionResults with
  | [] => 0
  | resolution :: rest =>
      (claimSum (strategyWeight confidenceWeights i) (identities resolution) key
       + accumulatedVoteFrom (S i) confidenceWeights rest key)%Q
  end.

Definition accumulatedVote (confidenceWeights : list Q)
    (resolutionResults : list Resolution) (key : IdentityKey) : Q :=
  accumulatedVoteFrom 0 confidenceWeights resolutionResults key.

(** The vote the code holds for [key]: the [totalWeight] of its entry, [0]
    for a key with no entry (the default of line 77). *)
Definition voteOf (votes : VoteMap) (key : IdentityKey) : JSNum :=
  totalWeight (default freshVote (mapGet votes key)).

Definition sourcesOf (votes : VoteMap) (key : IdentityKey) : list SourceTag :=
  sources (default freshVote (mapGet votes key)).

(** The total of an entry, as a rational. *)
Definition voteMeasure (entry : IdentityKey * Vote) : Q :=
  numValue (totalWeight (snd entry)).

(** The key list of the map after a [set]: a new key goes last. *)
Definition noteKey (seen : list IdentityKey) (k : IdentityKey) : list IdentityKey :=
  if existsb (String.eqb k) seen then seen else seen ++ [k].

(** The claimed identities, each once, in the order of their first claim. *)
Definition firstSeen (claimedKeys : list IdentityKey) : list IdentityKey :=
  fold_left noteKey claimedKeys [].


(** ** The tie-break of the specification

    "If two or more identities tie for the maximum vote, prefer the one with
    the larger number of contributing sources; if still tied, prefer the
    lexicographically smaller IdentityKey."  [specPrefers a b] says that the
    specification ranks entry [a] above entry [b]. *)
Definition specPrefers (a b : IdentityKey * Vote) : bool :=
  if Qeq_bool (voteMeasure a) (voteMeasure b)
  then if Nat.eqb (length (sources (snd a))) (length (sources (snd b)))
       then String.ltb (fst a) (fst b)
       else Nat.ltb (length (sources (snd b))) (length (sources (snd a)))
  else negb (Qle_bool (voteMeasure a) (voteMeasure b)).

Definition specConsensus (votes : VoteMap) : option IdentityKey :=
  match votes with
  | [] => None
  | first :: rest =>
      Some (fst (fold_left
                   (fun best entry => if specPrefers entry best then entry else best)
                   rest first))
  end.

(** ** Worked inputs *)

Definition claimOf (identity : IdentityKey) (from : SourceTag) (c : Q)
  : IdentityKey * ClaimMetadata :=
  (identity, {| source := from; relationship := "same_person";
                confidence := c; temporalScope := (0%Z, 0%Z) |}).

Definition noClaims : Resolution := {| identities := [] |}.

(** Collaborators that answer as told: strategy outcomes and weights are
    given, the master id is the consensus identity itself. *)
Definition scripted (email device behavioral transaction : Outcome Resolution)
    (weights : list Q) : IdentityCollaborators unit CustomerIdentityGraph unit :=
  {| resolveByEmailFingerprint := fun _ => email;
     resolveByDeviceGraph := fun _ => device;
     resolveByBehavioralPatterns := fun _ => behavioral;
     resolveByTransactionalHistory := fun _ => transaction;
     calculateResolutionWeights := fun _ => Ok weights;
     generateMasterCustomerId := fun identity => Ok identity;
     calculateOverallResolutionConfidence := fun _ => Ok (Num 1);
     extractIdentityAttributes := fun _ => Ok tt |}.

Definition noData : DataStreams unit :=
  {| emailData := tt; deviceData := tt; behavioralData := tt; transactionData := tt |}.

(** Scenario 1 of the specification. *)
Definition scenario1 : list Resolution :=
  [ {| identities := [claimOf "A" "strategy1" 0.9] |};
    {| identities := [claimOf "A" "strategy2" 0.3] |};
    {| identities := [claimOf "B" "strategy3" 0.8] |} ].

Definition scenario1Weights : list Q := [1; 0.5; 1]%Q.

(** Scenario 3 of the specification: "A" and "B" tie at 0.75, "A" from three
    sources and "B" from one; "B" is claimed first. *)
Definition scenario3 : list Resolution :=
  [ {| identities := [claimOf "B" "strategy1" 0.75] |};
    {| identities := [claimOf "A" "strategy2" 0.25] |};
    {| identities := [claimOf "A" "strategy3" 0.25] |};
    {| identities := [claimOf "A" "strategy4" 0.25] |} ].

(** The same claims with the first strategy's result moved last. *)
Definition scenario3Reordered : list Resolution :=
  [ {| identities := [claimOf "A" "strategy2" 0.25] |};
    {| identities := [claimOf "A" "strategy3" 0.25] |};
    {| identities := [claimOf "A" "strategy4" 0.25] |};
    {| identities := [claimOf "B" "strategy1" 0.75] |} ].

Definition uniformWeights : list Q := [1; 1; 1; 1]%Q.

Definition uniformCollaborators
  : IdentityCollaborators unit CustomerIdentityGraph unit :=
  scripted (Ok noClaims) (Ok noClaims) (Ok noClaims) (Ok noClaims) uniformWeights.

Definition scenario3Votes : VoteMap := identityVotes uniformWeights scenario3.

(** A strategy result that claims the initial identifier itself. *)
Definition selfClaim : Resolution :=
  {| identities := [claimOf "cust-1" "device_graph" 0.5] |}.

(** The email strategy fails, the three others answer. *)
Definition emailDown : IdentityCollaborators unit CustomerIdentityGraph unit :=
  scripted (Throw (OtherError "email index unavailable"))
           (Ok selfClaim) (Ok noClaims) (Ok noClaims) uniformWeights.

(** The same run with the failed strategy replaced by an empty claim set. *)
Definition emailSilent : IdentityCollaborators unit CustomerIdentityGraph unit :=
  scripted (Ok noClaims) (Ok selfClaim) (Ok noClaims) (Ok noClaims) uniformWeights.

(** One strategy claims "A" for the customer "cust-1". *)
Definition claimsA : IdentityCollaborators unit CustomerIdentityGraph unit :=
  scripted (Ok {| identities := [claimOf "A" "strategy1" 0.9] |})
           (Ok noClaims) (Ok noClaims) (Ok noClaims) uniformWeights.

Definition initialNode : IdentityNode :=
  {| originSources := ["initial"]; nodeConf := 1 |}.

(** No strategy gives evidence: it fails or returns no claim. *)
Definition noEvidence (p : Outcome Resolution) : Prop :=
  match p with
  | Ok r => identities r = []
  | Throw _ => True
  end.

(** The edge [#resolveCustomerIdentity] requests for a claim, and the graph
    calls it makes for a list of strategy results, in order. *)
Definition edgeMetadataOf (metadata : ClaimMetadata) : EdgeMetadata :=
  {| edgeRelationship := relationship metadata;
     edgeConfidence := confidence metadata;
     temporalValidity := temporalScope metadata |}.

Definition edgeCall (initialIdentifier : IdentityKey)
    (claim : IdentityKey * ClaimMetadata) : GraphCall :=
  AddEdge initialIdentifier (fst claim) (edgeMetadataOf (snd claim)).

Definition graphCalls (initialIdentifier : IdentityKey)
    (resolutionResults : list Resolution) : list GraphCall :=
  AddNode initialIdentifier {| nodeSource := "initial"; nodeConfidence := 1 |}
  :: map (edgeCall initialIdentifier) (allClaims resolutionResults).

(** The graph after line 44: the initial identifier alone. *)
Definition seedGraph (initialIdentifier : IdentityKey) : CustomerIdentityGraph :=
  {| graphNodes := {[ initialIdentifier := initialNode ]}; graphEdges := [] |}.

(** ** The resolution of one conflict *)

(** Lines 131-132 for one conflict: the strategy chosen and what its
    resolver returns. *)
Definition resolutionOf {P : Type} (this : ConflictCollaborators P)
    (conflict : Conflict) : Outcome (string * StrategyResolution) :=
  resolutionStrategy ← selectResolutionStrategy this conflict;
  resolution ← match resolutionStrategies this resolutionStrategy with
               | Some resolve => resolve conflict
               | None => Throw TypeError
               end;
  Ok (resolutionStrategy, resolution).

Definition logEntryOf (dimension : DimensionName) (conflict : Conflict)
    (r : string * StrategyResolution) : LogEntry :=
  {| logDimension := dimension;
     logConflict := description conflict;
     logStrategy := fst r;
     logResolution := explanation (snd r);
     logConfidence := resolvedConfidence (snd r) |}.

(** The loop body on a visited pair. *)
Definition resolveVisit {P : Type} (this : ConflictCollaborators P)
    (state : ResolverState) (visit : DimensionName * Conflict)
  : Outcome ResolverState :=
  resolveOne this (fst visit) state (snd visit).

(** The last detected conflict of a dimension, if it has one. *)
Definition lastVisit (dimension : DimensionName)
    (visits : list (DimensionName * Conflict)) : option (DimensionName * Conflict) :=
  last (filter (fun visit => fst visit = dimension) visits).

(** The order the specification asks of the log: by dimension name, then by
    attribute name (the log records the conflict's description). *)
Definition logPrecedes (a b : LogEntry) : bool :=
  String.ltb (logDimension a) (logDimension b)
  || (String.eqb (logDimension a) (logDimension b)
      && String.leb (logConflict a) (logConflict b)).

Fixpoint logSorted (log : list LogEntry) : bool :=
  match log with
  | a :: ((b :: _) as rest) => logPrecedes a b && logSorted rest
  | _ => true
  end.

(** ** Worked profiles *)

Definition observed (v : Value) (from : SourceTag) (t : Z) (reliability : Q)
  : Candidate :=
  {| value := v; candidateSource := from; observedAt := t;
     sourceReliability := reliability |}.

Fixpoint mostReliable (cands : list Candidate) : option Candidate :=
  match cands with
  | [] => None
  | c :: rest =>
      match mostReliable rest with
      | Some best =>
          if Qle_bool (sourceReliability best) (sourceReliability c)
          then Some c else Some best
      | None => Some c
      end
  end.

(** A source-reliability resolver after the table of section 4.4: the
    candidate of the most reliable source wins, with that reliability as
    confidence. *)
Definition reliabilityResolver (conflict : Conflict) : Outcome StrategyResolution :=
  match mostReliable (candidates conflict) with
  | Some best => Ok {| resolvedValue := value best;
                       explanation := "most reliable source";
                       resolvedConfidence := sourceReliability best |}
  | None => Throw StrategyMismatchError
  end.

(** A resolver that cannot handle the attribute. *)
Definition mismatchedResolver (conflict : Conflict) : Outcome StrategyResolution :=
  Throw StrategyMismatchError.

(** Collaborators for the worked profiles: the detector of the
    specification with exact comparison, a fixed strategy choice, a
    source-reliability resolver, and a remaining-conflict report that is
    empty. *)
Definition choosing (strategy : string) : ConflictCollaborators Profile :=
  {| detectConflicts := specDetectConflicts 0;
     detectRemainingConflicts := fun _ => Ok [];
     selectResolutionStrategy := fun _ => Ok strategy;
     temporalRecencyResolve := mismatchedResolver;
     sourceReliabilityResolve := reliabilityResolver;
     statisticalConsensusResolve := mismatchedResolver;
     contextualPlausibilityResolve := mismatchedResolver |}.

(** A conflict is still open in a resolved profile when the profile holds,
    for the conflict's dimension, none of the conflict's candidate values. *)
Definition stillOpen (resolved : gmap DimensionName Value)
    (visit : DimensionName * Conflict) : bool :=
  match resolved !! fst visit with
  | Some v => negb (existsb (sameValue 0 v) (map value (candidates (snd visit))))
  | None => true
  end.

(** Collaborators whose detector checks the resolved profile against the
    conflicts of [profile]: it reports the conflicts that are still open. *)
Definition auditing (profile : Profile) : ConflictCollaborators Profile :=
  {| detectConflicts := specDetectConflicts 0;
     detectRemainingConflicts := fun resolved =>
       detected ← specDetectConflicts 0 profile;
       Ok (map snd (filter (fun visit => stillOpen resolved visit = true)
                           (visitOrder detected)));
     selectResolutionStrategy := fun _ => Ok "source_reliability";
     temporalRecencyResolve := mismatchedResolver;
     sourceReliabilityResolve := reliabilityResolver;
     statisticalConsensusResolve := mismatchedResolver;
     contextualPlausibilityResolve := mismatchedResolver |}.

(** Scenario 4 of the specification. *)
Definition scenario4 : Profile :=
  [ ("demographic",
     [ ("city", [ observed (VText "NYC") "srcA" 1 0.5;
                  observed (VText "NYC") "srcB" 2 0.5 ]) ]) ].

(** Conflicts in two dimensions, in the order [#synthesizeHolisticProfile]
    lists them (demographic before behavioral). *)
Definition twoDimensions : Profile :=
  [ ("demographic",
     [ ("city", [ observed (VText "NYC") "srcA" 1 0.9;
                  observed (VText "Boston") "srcB" 2 0.4 ]) ]);
    ("behavioral",
     [ ("segment", [ observed (VText "loyal") "srcA" 1 0.9;
                     observed (VText "churning") "srcB" 2 0.4 ]) ]) ].

(** Two conflicting attributes in one dimension; "income" is Scenario 5. *)
Definition twoAttributes : Profile :=
  [ ("demographic",
     [ ("city", [ observed (VText "NYC") "srcA" 1 0.9;
                  observed (VText "Boston") "srcB" 2 0.4 ]);
       ("income", [ observed (VNumber 5000) "srcA" 5 0.9;
                    observed (VNumber 7000) "srcB" 9 0.4 ]) ]) ].

(** A conflicting attribute in a dimension named "__proto__". *)
Definition protoDimension : Profile :=
  [ ("__proto__",
     [ ("city", [ observed (VText "NYC") "srcA" 1 0.9;
                  observed (VText "Boston") "srcB" 2 0.4 ]) ]) ].

(** ** Quantities read off the claim lists *)

(** The sources of the claims for [key], in the order the loops of
    [#establishConsensusIdentity] visit them. *)
Definition claimSources (resolutionResults : list Resolution) (key : IdentityKey)
  : list SourceTag :=
  map (fun claim => source (snd claim))
      (filter (fun claim => fst claim = key) (allClaims resolutionResults)).

(** ** Profile synthesis and the public entry point

    [#synthesizeHolisticProfile] (lines 89-113) and
    [constructUnifiedCustomerProfile] (lines 13-26).  The data handed between
    the steps are opaque to the class: [Raw] is aligned per-dimension data,
    [Dim] a synthesized dimension, [Info] a computed metric or report. *)

Record AlignedData (Raw : Type) : Type := {
  demographic : Raw;
  behavioral : Raw;
  transactional : Raw;
  social : Raw;
  preference : Raw
}.

Arguments demographic {Raw} _.
Arguments behavioral {Raw} _.
Arguments transactional {Raw} _.
Arguments social {Raw} _.
Arguments preference {Raw} _.

(** The object literal [profileDimensions] (lines 90-96). *)
Record ProfileDimensions (Dim : Type) : Type := {
  demographicProfile : Dim;
  behavioralProfile : Dim;
  transactionalProfile : Dim;
  relationalProfile : Dim;
  preferenceProfile : Dim
}.

Arguments demographicProfile {Dim} _.
Arguments behavioralProfile {Dim} _.
Arguments transactionalProfile {Dim} _.
Arguments relationalProfile {Dim} _.
Arguments preferenceProfile {Dim} _.

Record ProfileMetadata (Info : Type) : Type := {
  dataFreshness : Info;
  profileCompleteness : Info;
  confidenceScores : Info;
  lastUpdated : string
}.

Arguments dataFreshness {Info} _.
Arguments profileCompleteness {Info} _.
Arguments confidenceScores {Info} _.
Arguments lastUpdated {Info} _.

Record UnifiedProfile (Dim Info : Type) : Type := {
  customerId : string;
  profile : ProfileDimensions Dim;
  metadata : ProfileMetadata Info;
  temporalConsistency : Info;
  conflictResolution : ConflictResolution
}.

Arguments customerId {Dim Info} _.
Arguments profile {Dim Info} _.
Arguments metadata {Dim Info} _.
Arguments temporalConsistency {Dim Info} _.
Arguments conflictResolution {Dim Info} _.

(** Private methods of the aggregator that the two functions call and the
    class does not define.  [D] is raw per-source data, [T] the temporally
    aligned data, [F] the freshness requirements, [R] what the final
    enrichment returns. *)
Record ProfileCollaborators (D G Attrs T Raw Dim Info F R : Type) : Type := {
  ingestMultiSourceCustomerData : IdentityKey -> Outcome (DataStreams D);
  alignTemporalDataDimensions :
    DataStreams D -> ResolvedIdentity G Attrs -> Outcome T;
  applyPrivacyTransformations : T -> Outcome (AlignedData Raw);
  enrichWithDerivedInsights : UnifiedProfile Dim Info -> G -> Outcome R;
  synthesizeDemographicProfile : Raw -> Outcome Dim;
  synthesizeBehavioralProfile : Raw -> Outcome Dim;
  synthesizeTransactionalProfile : Raw -> Outcome Dim;
  synthesizeRelationalProfile : Raw -> G -> Outcome Dim;
  synthesizePreferenceProfile : Raw -> Outcome Dim;
  ensureTemporalConsistency : ProfileDimensions Dim -> F -> Outcome Info;
  calculateDataFreshnessMetrics : AlignedData Raw -> Outcome Info;
  calculateProfileCompleteness : ProfileDimensions Dim -> Outcome Info;
  calculateDimensionConfidences : ProfileDimensions Dim -> Outcome Info
}.

Arguments ingestMultiSourceCustomerData {D G Attrs T Raw Dim Info F R} _ _.
Arguments alignTemporalDataDimensions {D G Attrs T Raw Dim Info F R} _ _ _.
Arguments applyPrivacyTransformations {D G Attrs T Raw Dim Info F R} _ _.
Arguments enrichWithDerivedInsights {D G Attrs T Raw Dim Info F R} _ _ _.
Arguments synthesizeDemographicProfile {D G Attrs T Raw Dim Info F R} _ _.
Arguments synthesizeBehavioralProfile {D G Attrs T Raw Dim Info F R} _ _.
Arguments synthesizeTransactionalProfile {D G Attrs T Raw Dim Info F R} _ _.
Arguments synthesizeRelationalProfile {D G Attrs T Raw Dim Info F R} _ _ _.
Arguments synthesizePreferenceProfile {D G Attrs T Raw Dim Info F R} _ _.
Arguments ensureTemporalConsistency {D G Attrs T Raw Dim Info F R} _ _ _.
Arguments calculateDataFreshnessMetrics {D G Attrs T Raw Dim Info F R} _ _.
Arguments calculateProfileCompleteness {D G Attrs T Raw Dim Info F R} _ _.
Arguments calculateDimensionConfidences {D G Attrs T Raw Dim Info F R} _ _.

Section ProfileConstruction.
Context {D G Attrs T Raw Dim Info F R : Type} `{IdentityGraphOps G}.
Variable identity : IdentityCollaborators D G Attrs.
Variable conflicts : ConflictCollaborators (ProfileDimensions Dim).
Variable this : ProfileCollaborators D G Attrs T Raw Dim Info F R.

(** Lines 90-96: the five dimensions, synthesized in this order. *)
Definition synthesizeDimensions (alignedData : AlignedData Raw)
    (resolvedIdentity : ResolvedIdentity G Attrs)
  : Outcome (ProfileDimensions Dim) :=
  demographicDim ← synthesizeDemographicProfile this (demographic alignedData);
  behavioralDim ← synthesizeBehavioralProfile this (behavioral alignedData);
  transactionalDim ← synthesizeTransactionalProfile this (transactional alignedData);
  relationalDim ← synthesizeRelationalProfile this (social alignedData)
                     (identityGraph resolvedIdentity);
  preferenceDim ← synthesizePreferenceProfile this (preference alignedData);
  Ok {| demographicProfile := demographicDim;
        behavioralProfile := behavioralDim;
        transactionalProfile := transactionalDim;
        relationalProfile := relationalDim;
        preferenceProfile := preferenceDim |}.

(** [now] is what [new Date().toISOString()] returns at line 108. *)
Definition synthesizeHolisticProfile (now : string)
    (alignedData : AlignedData Raw) (resolvedIdentity : ResolvedIdentity G Attrs)
    (freshnessRequirements : F) : Outcome (UnifiedProfile Dim Info) :=
  profileDimensions ← synthesizeDimensions alignedData resolvedIdentity;
  consistency ← ensureTemporalConsistency this profileDimensions
                  freshnessRequirements;
  resolution ← resolveProfileConflicts conflicts profileDimensions;
  freshness ← calculateDataFreshnessMetrics this alignedData;
  completeness ← calculateProfileCompleteness this profileDimensions;
  confidences ← calculateDimensionConfidences this profileDimensions;
  Ok {| customerId := masterCustomerId resolvedIdentity;
        profile := profileDimensions;
        metadata := {| dataFreshness := freshness;
                       profileCompleteness := completeness;
                       confidenceScores := confidences;
                       lastUpdated := now |};
        temporalConsistency := consistency;
        conflictResolution := resolution |}.

Definition constructUnifiedCustomerProfile (now : string)
    (customerIdentifier : IdentityKey) (dataFreshnessRequirements : F)
  : Outcome R :=
  rawDataStreams ← ingestMultiSourceCustomerData this customerIdentifier;
  resolvedIdentity ← resolveCustomerIdentity identity rawDataStreams
                       customerIdentifier;
  temporallyAligned ← alignTemporalDataDimensions this rawDataStreams
                        resolvedIdentity;
  privacyFiltered ← applyPrivacyTransformations this temporallyAligned;
  unifiedProfile ← synthesizeHolisticProfile now privacyFiltered
                     resolvedIdentity dataFreshnessRequirements;
  enrichWithDerivedInsights this unifiedProfile (identityGraph resolvedIdentity).
End ProfileConstruction.

(** ** Real-time enrichment

    [RealTimeProfileEnrichmentEngine] (lines 153-209).  [customerProfile] is
    the caller's object: [#applyProfileUpdate] writes to it in place, so what
    it holds when the call ends is part of the outcome, also when the call is
    rejected.  Functions of this class therefore return the profile they
    leave behind beside their result.  [Prof] is the profile, [Ev] the
    events, [Opp] a detector's findings, [E] a prioritized enrichment, [U]
    the update an enrichment asks for, [Info] a computed report. *)

(** What [#executeEnrichmentPipeline] returns, as far as the loop reads it. *)
Record EnrichmentResult (U : Type) : Type := {
  requiresProfileUpdate : bool;
  enrichment : U
}.

Arguments requiresProfileUpdate {U} _.
Arguments enrichment {U} _.

Record EnrichmentContext (Info : Type) : Type := {
  dataFreshnessRequirements : Info;
  strategicObjectives : Info
}.

Arguments dataFreshnessRequirements {Info} _.
Arguments strategicObjectives {Info} _.

(** The criteria object passed to [prioritize] (lines 201-207). *)
Record PrioritizationCriteria (Info : Type) : Type := {
  businessValue : Info;
  criteriaDataFreshness : Info;
  computationalCost : Info;
  strategicImportance : Info;
  customerImpact : Info
}.

Record EnrichmentReport (Prof U Info : Type) : Type := {
  enrichedProfile : Prof;
  appliedEnrichments : list (EnrichmentResult U);
  consistencyStatus : Info;
  enrichmentMetrics : Info
}.

Arguments enrichedProfile {Prof U Info} _.
Arguments appliedEnrichments {Prof U Info} _.
Arguments consistencyStatus {Prof U Info} _.
Arguments enrichmentMetrics {Prof U Info} _.

(** Methods and collaborating classes the engine uses and the repository
    does not define.  Only [applyProfileUpdate] writes to the profile: it
    returns the profile it leaves and whether it completed. *)
Record EnrichmentCollaborators (Prof Ev Opp E U Info : Type) : Type := {
  processEventStream : Ev -> Outcome Ev;
  behavioralPatternDetect : Ev -> Prof -> Outcome Opp;
  preferenceInferenceDetect : Ev -> Prof -> Outcome Opp;
  lifecycleStageDetect : Ev -> Prof -> Outcome Opp;
  propensityModelDetect : Ev -> Prof -> Outcome Opp;
  consolidateEnrichmentOpportunities : list Opp -> Outcome (list E);
  estimateBusinessValue : list E -> Outcome Info;
  estimateComputationalCost : list E -> Outcome Info;
  assessCustomerImpact : list E -> Outcome Info;
  prioritize : list E -> PrioritizationCriteria Info -> Outcome (list E);
  executeEnrichmentPipeline : E -> Prof -> Outcome (EnrichmentResult U);
  applyProfileUpdate : Prof -> U -> Prof * Outcome unit;
  validateProfileConsistency : Prof -> Outcome Info;
  calculateEnrichmentMetrics : list (EnrichmentResult U) -> Outcome Info
}.

Arguments processEventStream {Prof Ev Opp E U Info} _ _.
Arguments behavioralPatternDetect {Prof Ev Opp E U Info} _ _ _.
Arguments preferenceInferenceDetect {Prof Ev Opp E U Info} _ _ _.
Arguments lifecycleStageDetect {Prof Ev Opp E U Info} _ _ _.
Arguments propensityModelDetect {Prof Ev Opp E U Info} _ _ _.
Arguments consolidateEnrichmentOpportunities {Prof Ev Opp E U Info} _ _.
Arguments estimateBusinessValue {Prof Ev Opp E U Info} _ _.
Arguments estimateComputationalCost {Prof Ev Opp E U Info} _ _.
Arguments assessCustomerImpact {Prof Ev Opp E U Info} _ _.
Arguments prioritize {Prof Ev Opp E U Info} _ _ _.
Arguments executeEnrichmentPipeline {Prof Ev Opp E U Info} _ _ _.
Arguments applyProfileUpdate {Prof Ev Opp E U Info} _ _ _.
Arguments validateProfileConsistency {Prof Ev Opp E U Info} _ _.
Arguments calculateEnrichmentMetrics {Prof Ev Opp E U Info} _ _.

Section Enrichment.
Context {Prof Ev Opp E U Info : Type}.
Variable this : EnrichmentCollaborators Prof Ev Opp E U Info.

(** Lines 182-196: the four detectors run on the same events and profile,
    and their findings are consolidated in detector order. *)
Definition identifyEnrichmentOpportunities (processedEvents : Ev)
    (currentProfile : Prof) : Outcome (list E) :=
  detectedOpportunities ←
    promiseAll [ behavioralPatternDetect this processedEvents currentProfile;
                 preferenceInferenceDetect this processedEvents currentProfile;
                 lifecycleStageDetect this processedEvents currentProfile;
                 propensityModelDetect this processedEvents currentProfile ];
  consolidateEnrichmentOpportunities this detectedOpportunities.

(** Lines 198-208. *)
Definition prioritizeEnrichmentOperations (enrichmentCandidates : list E)
    (context : EnrichmentContext Info) : Outcome (list E) :=
  value ← estimateBusinessValue this enrichmentCandidates;
  cost ← estimateComputationalCost this enrichmentCandidates;
  impact ← assessCustomerImpact this enrichmentCandidates;
  prioritize this enrichmentCandidates
    {| businessValue := value;
       criteriaDataFreshness := dataFreshnessRequirements context;
       computationalCost := cost;
       strategicImportance := strategicObjectives context;
       customerImpact := impact |}.

(** The loop of lines 163-171, from the profile and the results so far. *)
Fixpoint enrichmentLoop (prioritizedEnrichments : list E) (customerProfile : Prof)
    (enrichmentResults : list (EnrichmentResult U))
  : Prof * Outcome (list (EnrichmentResult U)) :=
  match prioritizedEnrichments with
  | [] => (customerProfile, Ok enrichmentResults)
  | next :: rest =>
      match executeEnrichmentPipeline this next customerProfile with
      | Throw e => (customerProfile, Throw e)
      | Ok result =>
          let enrichmentResults := enrichmentResults ++ [result] in
          if requiresProfileUpdate result
          then match applyProfileUpdate this customerProfile (enrichment result) with
               | (updated, Ok _) => enrichmentLoop rest updated enrichmentResults
               | (updated, Throw e) => (updated, Throw e)
               end
          else enrichmentLoop rest customerProfile enrichmentResults
      end
  end.

(** Lines 159-161: the enrichments to run, in priority order.  These steps
    read the profile and do not write to it. *)
Definition planEnrichments (customerProfile : Prof) (incomingEvents : Ev)
    (enrichmentContext : EnrichmentContext Info) : Outcome (list E) :=
  processedEvents ← processEventStream this incomingEvents;
  enrichmentCandidates ←
    identifyEnrichmentOpportunities processedEvents customerProfile;
  prioritizeEnrichmentOperations enrichmentCandidates enrichmentContext.

Definition enrichProfileInRealTime (customerProfile : Prof) (incomingEvents : Ev)
    (enrichmentContext : EnrichmentContext Info)
  : Prof * Outcome (EnrichmentReport Prof U Info) :=
  match planEnrichments customerProfile incomingEvents enrichmentContext with
  | Throw e => (customerProfile, Throw e)
  | Ok prioritizedEnrichments =>
      match enrichmentLoop prioritizedEnrichments customerProfile [] with
      | (enriched, Throw e) => (enriched, Throw e)
      | (enriched, Ok enrichmentResults) =>
          (enriched,
           consistencyCheck ← validateProfileConsistency this enriched;
           metrics ← calculateEnrichmentMetrics this enrichmentResults;
           Ok {| enrichedProfile := enriched;
                 appliedEnrichments := enrichmentResults;
                 consistencyStatus := consistencyCheck;
                 enrichmentMetrics := metrics |})
      end
  end.
End Enrichment.

(** ** Worked pipelines *)

(** A synthesized dimension of the worked pipeline: its attributes with
    their candidates. *)
Definition WorkedDimension : Type := list (AttributeName * list Candidate).

(** The dimensions by name, in the order of the object literal. *)
Definition asProfile (dims : ProfileDimensions WorkedDimension) : Profile :=
  [ ("demographic", demographicProfile dims);
    ("behavioral", behavioralProfile dims);
    ("transactional", transactionalProfile dims);
    ("relational", relationalProfile dims);
    ("preference", preferenceProfile dims) ].

Definition choosingFor (strategy : string)
  : ConflictCollaborators (ProfileDimensions WorkedDimension) :=
  {| detectConflicts := fun dims => specDetectConflicts 0 (asProfile dims);
     detectRemainingConflicts := fun _ => Ok [];
     selectResolutionStrategy := fun _ => Ok strategy;
     temporalRecencyResolve := mismatchedResolver;
     sourceReliabilityResolve := reliabilityResolver;
     statisticalConsensusResolve := mismatchedResolver;
     contextualPlausibilityResolve := mismatchedResolver |}.

(** Steps that pass their data on: the aligned data already hold the
    attributes of each dimension. *)
Definition passingOn (aligned : AlignedData WorkedDimension)
  : ProfileCollaborators unit CustomerIdentityGraph unit unit WorkedDimension
      WorkedDimension string unit (UnifiedProfile WorkedDimension string) :=
  {| ingestMultiSourceCustomerData := fun _ => Ok noData;
     alignTemporalDataDimensions := fun _ _ => Ok tt;
     applyPrivacyTransformations := fun _ => Ok aligned;
     enrichWithDerivedInsights := fun unified _ => Ok unified;
     synthesizeDemographicProfile := fun raw => Ok raw;
     synthesizeBehavioralProfile := fun raw => Ok raw;
     synthesizeTransactionalProfile := fun raw => Ok raw;
     synthesizeRelationalProfile := fun raw _ => Ok raw;
     synthesizePreferenceProfile := fun raw => Ok raw;
     ensureTemporalConsistency := fun _ _ => Ok "consistent";
     calculateDataFreshnessMetrics := fun _ => Ok "fresh";
     calculateProfileCompleteness := fun _ => Ok "complete";
     calculateDimensionConfidences := fun _ => Ok "confident" |}.

Definition workedAligned : AlignedData WorkedDimension :=
  {| demographic :=
       [ ("city", [ observed (VText "NYC") "srcA" 1 0.9;
                    observed (VText "Boston") "srcB" 2 0.4 ]) ];
     behavioral :=
       [ ("segment", [ observed (VText "loyal") "srcA" 1 0.9;
                       observed (VText "churning") "srcB" 2 0.4 ]) ];
     transactional := [];
     social := [];
     preference := [] |}.

Definition workedIdentity : ResolvedIdentity CustomerIdentityGraph unit :=
  {| masterCustomerId := "cust-1";
     identityGraph := seedGraph "cust-1";
     resolutionConfidence := Num 1;
     identityAttributes := tt |}.

(** An enrichment engine over profiles that are lists of tags.  Every event
    is an enrichment candidate; running an enrichment asks to add its tag
    unless the profile has it; the enrichment "broken" fails. *)
Definition tagging
  : EnrichmentCollaborators (list string) (list string) (list string)
      string string string :=
  {| processEventStream := fun events => Ok events;
     behavioralPatternDetect := fun events _ => Ok events;
     preferenceInferenceDetect := fun _ _ => Ok [];
     lifecycleStageDetect := fun _ _ => Ok [];
     propensityModelDetect := fun _ _ => Ok [];
     consolidateEnrichmentOpportunities := fun found => Ok (concat found);
     estimateBusinessValue := fun _ => Ok "value";
     estimateComputationalCost := fun _ => Ok "cost";
     assessCustomerImpact := fun _ => Ok "impact";
     prioritize := fun candidates _ => Ok candidates;
     executeEnrichmentPipeline := fun tag tags =>
       if String.eqb tag "broken" then Throw (OtherError "pipeline failed")
       else Ok {| requiresProfileUpdate := negb (existsb (String.eqb tag) tags);
                  enrichment := tag |};
     applyProfileUpdate := fun tags tag => (tags ++ [tag], Ok tt);
     validateProfileConsistency := fun _ => Ok "consistent";
     calculateEnrichmentMetrics := fun _ => Ok "metrics" |}.

(** The engine of [tagging] with a propensity detector that fails. *)
Definition taggingWithoutPropensity
  : EnrichmentCollaborators (list string) (list string) (list string)
      string string string :=
  {| processEventStream := processEventStream tagging;
     behavioralPatternDetect := behavioralPatternDetect tagging;
     preferenceInferenceDetect := preferenceInferenceDetect tagging;
     lifecycleStageDetect := lifecycleStageDetect tagging;
     propensityModelDetect := fun _ _ => Throw (OtherError "model unavailable");
     consolidateEnrichmentOpportunities := consolidateEnrichmentOpportunities tagging;
     estimateBusinessValue := estimateBusinessValue tagging;
     estimateComputationalCost := estimateComputationalCost tagging;
     assessCustomerImpact := assessCustomerImpact tagging;
     prioritize := prioritize tagging;
     executeEnrichmentPipeline := executeEnrichmentPipeline tagging;
     applyProfileUpdate := applyProfileUpdate tagging;
     validateProfileConsistency := validateProfileConsistency tagging;
     calculateEnrichmentMetrics := calculateEnrichmentMetrics tagging |}.

Definition anyContext : EnrichmentContext string :=
  {| dataFreshnessRequirements := "hourly"; strategicObjectives := "retention" |}.

(** ** The vote in the arithmetic of doubles

    The definitions above compute the votes in exact arithmetic; that reading
    serves where rounding plays no part.  An engine adds and multiplies
    doubles: sums and products are rounded, they overflow to an infinity, and
    a difference of infinities is [NaN].  Which identity wins depends on the
    totals the engine holds, so the winner is studied on the loop read in an
    arbitrary [Arithmetic]: the numbers of an engine with the operations the
    code applies to them.  A weight or a confidence, given as a rational
    literal, stands for the double the literal denotes. *)

Record Arithmetic : Type := {
  number : Type;
  numZero : number;                        (* the literal [0] *)
  numAdd : number -> number -> number;     (* [a + b] *)
  numMul : option Q -> Q -> number;        (* [weight * confidence]; an
                                              [undefined] weight gives [NaN] *)
  numSub : number -> number -> number;     (* [a - b] *)
  numPositive : number -> bool;            (* [v > 0], false of [NaN] *)
  numIsNaN : number -> bool;
  numLeb : number -> number -> bool        (* [a <= b], false when either
                                              is [NaN] *)
}.

(** What the proofs about the winner use of the arithmetic.  Doubles have
    these properties: [<=] is a total preorder on the numbers other than
    [NaN], infinities included, and, gradual underflow keeping a difference
    of distinct doubles away from zero, [b - a > 0] exactly when [a < b]
    ([Infinity - Infinity] is [NaN], which is not positive). *)
Record DoubleLaws (N : Arithmetic) : Prop := {
  numLeb_total : forall a b : number N,
    numIsNaN N a = false -> numIsNaN N b = false ->
    numLeb N a b = true \/ numLeb N b a = true;
  numLeb_trans : forall a b c : number N,
    numLeb N a b = true -> numLeb N b c = true -> numLeb N a c = true;
  numSub_positive : forall a b : number N,
    numIsNaN N a = false -> numIsNaN N b = false ->
    numPositive N (numSub N b a) = negb (numLeb N b a)
}.

(** Exact arithmetic, on the numbers of the first reading. *)
Definition exactArithmetic : Arithmetic :=
  {| number := JSNum;
     numZero := Num 0;
     numAdd := addNum;
     numMul := mulWeight;
     numSub := subNum;
     numPositive := isPositive;
     numIsNaN := fun v => match v with NaN => true | Num _ => false end;
     numLeb := fun a b => match a, b with
                          | Num p, Num q => Qle_bool p q
                          | _, _ => false
                          end |}.

(** The double a rational literal denotes: the quotient of two integers that
    are doubles themselves is correctly rounded (numerator and denominator
    are taken below [2^53]). *)
Definition doubleOfZ (z : Z) : float :=
  match z with
  | Z0 => PrimFloat.zero
  | Zpos _ => PrimFloat.of_uint63 (Uint63.of_Z z)
  | Zneg p => PrimFloat.opp (PrimFloat.of_uint63 (Uint63.of_Z (Zpos p)))
  end.

Definition doubleOf (q : Q) : float :=
  PrimFloat.div (doubleOfZ (Qnum q)) (doubleOfZ (Zpos (Qden q))).

(** The arithmetic of binary64 doubles, on the primitive floats. *)
Definition doubleArithmetic : Arithmetic :=
  {| number := float;
     numZero := PrimFloat.zero;
     numAdd := PrimFloat.add;
     numMul := fun weight x =>
       match weight with
       | Some w => PrimFloat.mul (doubleOf w) (doubleOf x)
       | None => PrimFloat.nan
       end;
     numSub := PrimFloat.sub;
     numPositive := fun v => PrimFloat.ltb PrimFloat.zero v;
     numIsNaN := PrimFloat.is_nan;
     numLeb := PrimFloat.leb |}.

(** A [Map] from identities, in insertion order. *)
Fixpoint assocGet {V : Type} (m : list (IdentityKey * V)) (k : IdentityKey)
  : option V :=
  match m with
  | [] => None
  | (k', v) :: m' => if String.eqb k k' then Some v else assocGet m' k
  end.

Fixpoint assocSet {V : Type} (m : list (IdentityKey * V)) (k : IdentityKey) (v : V)
  : list (IdentityKey * V) :=
  match m with
  | [] => [(k, v)]
  | (k', v') :: m' =>
      if String.eqb k k' then (k, v) :: m' else (k', v') :: assocSet m' k v
  end.

(** A stable sort by a test "[y] goes in front of the earlier [x]". *)
Section StableSortBy.
Context {A : Type} (overtakes : A -> A -> bool).

Fixpoint insertBy (x : A) (sorted : list A) : list A :=
  match sorted with
  | [] => [x]
  | y :: rest => if overtakes x y then y :: insertBy x rest else x :: sorted
  end.

Fixpoint stableSortBy (l : list A) : list A :=
  match l with
  | [] => []
  | x :: rest => insertBy x (stableSortBy rest)
  end.
End StableSortBy.

Module Engine.
Section InArithmetic.
Variable N : Arithmetic.

Record Vote : Type := {
  totalWeight : number N;
  sources : list SourceTag
}.

Definition freshVote : Vote := {| totalWeight := numZero N; sources := [] |}.

(** Lines 77-80. *)
Definition castVote (weight : option Q) (identityVotes : list (IdentityKey * Vote))
    (claim : IdentityKey * ClaimMetadata) : list (IdentityKey * Vote) :=
  let '(identity, metadata) := claim in
  let currentVote := default freshVote (assocGet identityVotes identity) in
  assocSet identityVotes identity
    {| totalWeight :=
         numAdd N (totalWeight currentVote) (numMul N weight (confidence metadata));
       sources := sources currentVote ++ [source metadata] |}.

(** Lines 72-82, from strategy index [i]. *)
Fixpoint tallyFrom (i : nat) (confidenceWeights : list Q)
    (resolutionResults : list Resolution)
    (identityVotes : list (IdentityKey * Vote)) : list (IdentityKey * Vote) :=
  match resolutionResults with
  | [] => identityVotes
  | resolution :: rest =>
      let weight := nth_error confidenceWeights i in
      tallyFrom (S i) confidenceWeights rest
        (fold_left (castVote weight) (identities resolution) identityVotes)
  end.

Definition identityVotes (confidenceWeights : list Q)
    (resolutionResults : list Resolution) : list (IdentityKey * Vote) :=
  tallyFrom 0 confidenceWeights resolutionResults [].

(** The comparator [(a, b) => b[1].totalWeight - a[1].totalWeight]. *)
Definition byDescendingWeight (a b : IdentityKey * Vote) : number N :=
  numSub N (totalWeight (snd b)) (totalWeight (snd a)).

(** Lines 84-86.  The sort is stable: [b] goes in front of an earlier [a]
    only when the comparator is positive on [(a, b)].  When no total is
    [NaN] the comparator is consistent and this is the order every engine
    produces. *)
Definition highestVoted (votes : list (IdentityKey * Vote)) : Outcome IdentityKey :=
  match firstn 1 (stableSortBy (fun a b => numPositive N (byDescendingWeight a b))
                               votes) with
  | entry :: _ => Ok (fst entry)
  | [] => Throw TypeError
  end.

Definition establishConsensusIdentity {D G Attrs : Type}
    (this : IdentityCollaborators D G Attrs)
    (resolutionResults : list Resolution) : Outcome IdentityKey :=
  confidenceWeights ← calculateResolutionWeights this resolutionResults;
  highestVoted (identityVotes confidenceWeights resolutionResults).

(** The total held for [key], [0] when it has no entry. *)
Definition voteOf (votes : list (IdentityKey * Vote)) (key : IdentityKey) : number N :=
  totalWeight (default freshVote (assocGet votes key)).

(** The claims with the weight of their strategy, in visiting order. *)
Fixpoint weightedClaimsFrom (i : nat) (confidenceWeights : list Q)
    (resolutionResults : list Resolution)
  : list (option Q * (IdentityKey * ClaimMetadata)) :=
  match resolutionResults with
  | [] => []
  | resolution :: rest =>
      map (pair (nth_error confidenceWeights i)) (identities resolution)
      ++ weightedClaimsFrom (S i) confidenceWeights rest
  end.

(** "The sum over all claims for that key of strategyWeight[i] *
    claim.confidence": the products, added one after the other to [0] in
    visiting order. *)
Definition accumulatedVote (confidenceWeights : list Q)
    (resolutionResults : list Resolution) (key : IdentityKey) : number N :=
  fold_left (numAdd N)
    (map (fun wc => numMul N (fst wc) (confidence (snd (snd wc))))
         (filter (fun wc => fst (snd wc) = key)
                 (weightedClaimsFrom 0 confidenceWeights resolutionResults)))
    (numZero N).

(** No claimed identity has the total [NaN]. *)
Definition totalsAreNumbers (confidenceWeights : list Q)
    (resolutionResults : list Resolution) : Prop :=
  forall k, claimed resolutionResults k ->
    numIsNaN N (voteOf (identityVotes confidenceWeights resolutionResults) k) = false.
End InArithmetic.

Arguments totalWeight {N} _.
Arguments sources {N} _.
End Engine.

(** Two identities whose exact votes differ by [2^-53]: the sum [1 + 2^-53]
    rounds to [1], and the totals the engine holds are equal. *)
Definition roundedTie : list Resolution :=
  [ {| identities := [claimOf "A" "strategy1" 1; claimOf "B" "strategy1" 1] |};
    {| identities := [claimOf "B" "strategy2" (1 # 9007199254740992)] |} ].

(** Doubles on which the laws are tried by computation: the zeros, the
    least subnormal, numbers next to each other, the greatest double and
    the infinities. *)
Definition notableDoubles : list float :=
  [ PrimFloat.zero; PrimFloat.neg_zero;
    PrimFloat.next_up PrimFloat.zero;
    PrimFloat.next_up (PrimFloat.next_up PrimFloat.zero);
    PrimFloat.opp (PrimFloat.next_up PrimFloat.zero);
    doubleOf 0.1; doubleOf 0.3; PrimFloat.add (doubleOf 0.1) (doubleOf 0.2);
    PrimFloat.one; PrimFloat.next_up PrimFloat.one; PrimFloat.opp PrimFloat.one;
    PrimFloat.next_down PrimFloat.infinity;
    PrimFloat.opp (PrimFloat.next_down PrimFloat.infinity);
    PrimFloat.infinity; PrimFloat.neg_infinity ].

(** The three laws, decided on every pair and triple of a list of numbers. *)
Definition lawsHoldOn (N : Arithmetic) (numbers : list (number N)) : bool :=
  forallb (fun a =>
    forallb (fun b =>
      (numLeb N a b || numLeb N b a)
      && Bool.eqb (numPositive N (numSub N b a)) (negb (numLeb N b a))
      && forallb (fun c =>
           implb (numLeb N a b && numLeb N b c) (numLeb N a c)) numbers)
      numbers)
    numbers.

(** ** The calls made on the identity graph *)

(** A call on a graph, whatever class implements it. *)
Definition applyCall {G : Type} `{IdentityGraphOps G} (graph : G) (call : GraphCall)
  : Outcome G :=
  match call with
  | AddNode identity metadata => addIdentityNode graph identity metadata
  | AddEdge from to metadata => addIdentityEdge graph from to metadata
  end.

Definition isAddNode (call : GraphCall) : bool :=
  match call with
  | AddNode _ _ => true
  | AddEdge _ _ _ => false
  end.

(** A graph that accepts every call and keeps the calls made on it, in
    order: it shows what the resolver asks of its graph. *)
Definition recordingGraph : IdentityGraphOps (list GraphCall) :=
  {| newGraph := [];
     addIdentityNode := fun calls identity metadata =>
       Ok (calls ++ [AddNode identity metadata]);
     addIdentityEdge := fun calls from to metadata =>
       Ok (calls ++ [AddEdge from to metadata]) |}.

(** Collaborators that answer as told, for a resolver on the recording
    graph. *)
Definition scriptedOnRecorder
    (email device behavioral transaction : Outcome Resolution) (weights : list Q)
  : IdentityCollaborators unit (list GraphCall) unit :=
  {| resolveByEmailFingerprint := fun _ => email;
     resolveByDeviceGraph := fun _ => device;
     resolveByBehavioralPatterns := fun _ => behavioral;
     resolveByTransactionalHistory := fun _ => transaction;
     calculateResolutionWeights := fun _ => Ok weights;
     generateMasterCustomerId := fun identity => Ok identity;
     calculateOverallResolutionConfidence := fun _ => Ok (Num 1);
     extractIdentityAttributes := fun _ => Ok tt |}.

(** The claims of Scenario 1 for the customer "cust-1", "A" being claimed
    twice. *)
Definition scenario1OnRecorder : IdentityCollaborators unit (list GraphCall) unit :=
  scriptedOnRecorder (Ok {| identities := [claimOf "A" "strategy1" 0.9] |})
                     (Ok {| identities := [claimOf "A" "strategy2" 0.3] |})
                     (Ok {| identities := [claimOf "B" "strategy3" 0.8] |})
                     (Ok noClaims) uniformWeights.

(** The calls section 4.2 of the specification asks for when "A" is claimed
    for "cust-1": the claimed identity is inserted before its edge. *)
Definition callsClaimingA : list GraphCall :=
  [ AddNode "cust-1" {| nodeSource := "initial"; nodeConfidence := 1 |};
    AddNode "A" {| nodeSource := "strategy1"; nodeConfidence := 0.9 |};
    edgeCall "cust-1" (claimOf "A" "strategy1" 0.9) ].
(** * Facts about the vote map *)

Section VoteMapFacts.
Implicit Types (m : VoteMap) (k : IdentityKey) (v : Vote).

Lemma mapGet_mapSet m k k' v :
  mapGet (mapSet m k v) k' = if String.eqb k' k then Some v else mapGet m k'.
Proof.
  induction m as [|[k0 v0] m IH]; simpl.
  - reflexivity.
  - destruct (String.eqb_spec k k0) as [->|Hne]; simpl.
    + destruct (String.eqb_spec k' k0); reflexivity.
    + rewrite IH. destruct (String.eqb_spec k' k0) as [->|]; [|reflexivity].
      destruct (String.eqb_spec k0 k); congruence.
Qed.

Lemma classic_in m k : In k (map fst m) \/ ~ In k (map fst m).
Proof.
  destruct (in_dec String.string_dec k (map fst m)); [left | right]; assumption.
Qed.

Lemma mapGet_None m k : mapGet m k = None <-> ~ In k (map fst m).
Proof.
  induction m as [|[k0 v0] m IH]; simpl; [tauto|].
  destruct (String.eqb_spec k k0) as [->|Hne].
  - split; [discriminate | tauto].
  - rewrite IH. split; [intros ? [?|?]; congruence | tauto].
Qed.

Lemma mapSet_keys m k v :
  map fst (mapSet m k v) =
  match mapGet m k with Some _ => map fst m | None => map fst m ++ [k] end.
Proof.
  induction m as [|[k0 v0] m IH]; simpl.
  - reflexivity.
  - destruct (String.eqb_spec k k0) as [->|Hne]; simpl.
    + reflexivity.
    + rewrite IH. destruct (mapGet m k); reflexivity.
Qed.

Lemma mapSet_in_keys m k v k' :
  In k' (map fst (mapSet m k v)) <-> k' = k \/ In k' (map fst m).
Proof.
  rewrite mapSet_keys. destruct (mapGet m k) eqn:Hget.
  - split; [tauto|]. intros [->|?]; [|assumption].
    destruct (classic_in m k) as [?|Hout]; [assumption|].
    apply mapGet_None in Hout. congruence.
  - rewrite in_app_iff. simpl. split; [intuition congruence|]. intros [->|?]; tauto.
Qed.

Lemma mapSet_NoDup m k v : NoDup (map fst m) -> NoDup (map fst (mapSet m k v)).
Proof.
  intros Hnd. rewrite mapSet_keys. destruct (mapGet m k) eqn:Hget; [assumption|].
  apply mapGet_None in Hget.
  apply NoDup_app. repeat split.
  - assumption.
  - intros x Hx Hx'. apply list_elem_of_In in Hx, Hx'. simpl in Hx'.
    destruct Hx' as [<-|[]]. contradiction.
  - apply NoDup_singleton.
Qed.

Lemma castVote_keys_in w m claim k :
  In k (map fst (castVote w m claim)) <-> k = fst claim \/ In k (map fst m).
Proof. destruct claim as [identity metadata]. apply mapSet_in_keys. Qed.

Lemma castVote_NoDup w m claim :
  NoDup (map fst m) -> NoDup (map fst (castVote w m claim)).
Proof. destruct claim as [identity metadata]. apply mapSet_NoDup. Qed.

Lemma castVote_voteOf w m claim k :
  voteOf (castVote w m claim) k =
  if String.eqb k (fst claim)
  then addNum (voteOf m k) (mulWeight w (confidence (snd claim)))
  else voteOf m k.
Proof.
  destruct claim as [identity metadata]. unfold voteOf, castVote. simpl.
  rewrite mapGet_mapSet.
  destruct (String.eqb_spec k identity) as [->|_]; reflexivity.
Qed.

Lemma castVote_sourcesOf w m claim k :
  sourcesOf (castVote w m claim) k =
  if String.eqb k (fst claim)
  then sourcesOf m k ++ [source (snd claim)]
  else sourcesOf m k.
Proof.
  destruct claim as [identity metadata]. unfold sourcesOf, castVote. simpl.
  rewrite mapGet_mapSet.
  destruct (String.eqb_spec k identity) as [->|_]; reflexivity.
Qed.
End VoteMapFacts.

(** * Facts about the tally *)

Section TallyFacts.
Variable confidenceWeights : list Q.

Lemma fold_castVote_keys w claims (m : VoteMap) k :
  In k (map fst (fold_left (castVote w) claims m)) <->
  In k (map fst claims) \/ In k (map fst m).
Proof.
  revert m. induction claims as [|claim claims IH]; intros m; simpl.
  - tauto.
  - rewrite IH, castVote_keys_in. intuition congruence.
Qed.

Lemma fold_castVote_NoDup w claims (m : VoteMap) :
  NoDup (map fst m) -> NoDup (map fst (fold_left (castVote w) claims m)).
Proof.
  revert m. induction claims as [|claim claims IH]; intros m Hnd; simpl.
  - assumption.
  - apply IH, castVote_NoDup, Hnd.
Qed.

Lemma fold_castVote_voteOf w claims (m : VoteMap) k q0 :
  voteOf m k = Num q0 ->
  exists q, voteOf (fold_left (castVote (Some w)) claims m) k = Num q /\
            (q == q0 + claimSum w claims k)%Q.
Proof.
  revert m q0. induction claims as [|[identity metadata] claims IH];
    intros m q0 Hm; cbn [fold_left claimSum].
  - exists q0. split; [assumption | lra].
  - destruct (String.eqb_spec k identity) as [->|Hne].
    + destruct (IH (castVote (Some w) m (identity, metadata))
                   (q0 + w * confidence metadata)%Q) as (q & Hq & Heq).
      { rewrite castVote_voteOf. simpl. rewrite String.eqb_refl, Hm. reflexivity. }
      exists q. split; [assumption | lra].
    + apply IH. rewrite castVote_voteOf. simpl.
      destruct (String.eqb_spec k identity); [contradiction | assumption].
Qed.

Lemma tallyFrom_keys resolutionResults i (m : VoteMap) k :
  In k (map fst (tallyFrom i confidenceWeights resolutionResults m)) <->
  claimed resolutionResults k \/ In k (map fst m).
Proof.
  unfold claimed, allClaims.
  revert i m. induction resolutionResults as [|r rest IH]; intros i m; simpl.
  - tauto.
  - rewrite IH, fold_castVote_keys, map_app, in_app_iff. tauto.
Qed.

Lemma tallyFrom_NoDup resolutionResults i (m : VoteMap) :
  NoDup (map fst m) ->
  NoDup (map fst (tallyFrom i confidenceWeights resolutionResults m)).
Proof.
  revert i m. induction resolutionResults as [|r rest IH]; intros i m Hnd; simpl.
  - assumption.
  - apply IH, fold_castVote_NoDup, Hnd.
Qed.

Lemma tallyFrom_voteOf resolutionResults i (m : VoteMap) k q0 :
  i + length resolutionResults <= length confidenceWeights ->
  voteOf m k = Num q0 ->
  exists q,
    voteOf (tallyFrom i confidenceWeights resolutionResults m) k = Num q /\
    (q == q0 + accumulatedVoteFrom i confidenceWeights resolutionResults k)%Q.
Proof.
  revert i m q0. induction resolutionResults as [|r rest IH];
    intros i m q0 Hlen Hm; simpl in *.
  - exists q0. split; [assumption | lra].
  - rewrite (nth_error_nth' confidenceWeights 0%Q) by lia.
    destruct (fold_castVote_voteOf (nth i confidenceWeights 0%Q)
                (identities r) m k q0 Hm) as (q1 & Hq1 & Heq1).
    destruct (IH (S i) _ q1 ltac:(lia) Hq1) as (q & Hq & Heq).
    exists q. split; [assumption|]. unfold strategyWeight. lra.
Qed.

Lemma identityVotes_keys resolutionResults k :
  In k (map fst (identityVotes confidenceWeights resolutionResults)) <->
  claimed resolutionResults k.
Proof. unfold identityVotes. rewrite tallyFrom_keys. simpl. tauto. Qed.

Lemma identityVotes_NoDup resolutionResults :
  NoDup (map fst (identityVotes confidenceWeights resolutionResults)).
Proof. apply tallyFrom_NoDup. constructor. Qed.

(** The code's running total is the specification's sum. *)
Lemma identityVotes_voteOf resolutionResults k :
  length resolutionResults <= length confidenceWeights ->
  exists q,
    voteOf (identityVotes confidenceWeights resolutionResults) k = Num q /\
    (q == accumulatedVote confidenceWeights resolutionResults k)%Q.
Proof.
  intros Hlen.
  destruct (tallyFrom_voteOf resolutionResults 0 [] k 0%Q) as (q & Hq & Heq);
    [simpl; lia | reflexivity |].
  exists q. split; [assumption|]. unfold accumulatedVote. lra.
Qed.

End TallyFacts.

(** * The head of a stable sort *)

Section SortHead.
Context {A : Type} (compareFn : A -> A -> JSNum).

Lemma insertSorted_cons x sorted :
  exists h t, insertSorted compareFn x sorted = h :: t.
Proof. destruct sorted; simpl; [eauto|]. destruct (isPositive _); eauto. Qed.

Lemma sortStable_nil l : sortStable compareFn l = [] -> l = [].
Proof.
  destruct l as [|x rest]; [reflexivity|]. simpl.
  destruct (insertSorted_cons x (sortStable compareFn rest)) as (h & t & ->).
  discriminate.
Qed.

End SortHead.

(** * The consensus identity *)

Lemma isPositive_spec q : isPositive (Num q) = true <-> (0 < q)%Q.
Proof.
  simpl. rewrite negb_true_iff. split.
  - intros Hle. apply Qnot_le_lt. intros H. apply Qle_bool_iff in H. congruence.
  - intros Hlt. destruct (Qle_bool q 0) eqn:Hle; [|reflexivity].
    apply Qle_bool_iff in Hle. lra.
Qed.

Lemma allClaims_nonempty resolutionResults :
  allClaims resolutionResults <> [] -> exists k, claimed resolutionResults k.
Proof.
  unfold claimed. destruct (allClaims resolutionResults) as [|[k m] rest].
  - congruence.
  - intros _. exists k. left. reflexivity.
Qed.


(** * The order of the vote map *)

Lemma existsb_eqb_In k (seen : list IdentityKey) :
  existsb (String.eqb k) seen = true <-> In k seen.
Proof.
  rewrite existsb_exists. split.
  - intros (x & Hx & Heq). apply String.eqb_eq in Heq. congruence.
  - intros Hin. exists k. split; [assumption | apply String.eqb_refl].
Qed.

Lemma noteKey_In seen k x : In x (noteKey seen k) <-> x = k \/ In x seen.
Proof.
  unfold noteKey. destruct (existsb (String.eqb k) seen) eqn:Hex.
  - apply existsb_eqb_In in Hex. split; [tauto|]. intros [->|?]; assumption.
  - rewrite in_app_iff. simpl. split; [intros [?|[->|[]]] | intros [->|?]]; tauto.
Qed.

Lemma fold_noteKey_prefix l seen :
  exists added, fold_left noteKey l seen = seen ++ added.
Proof.
  revert seen. induction l as [|x l IH]; intros seen; simpl.
  - exists []. symmetry. apply app_nil_r.
  - destruct (IH (noteKey seen x)) as [added ->]. unfold noteKey.
    destruct (existsb (String.eqb x) seen).
    + eauto.
    + exists ([x] ++ added). apply eq_sym, app_assoc.
Qed.

Lemma prefix_before seen added kb k ka :
  seen ++ added = kb ++ k :: ka -> ~ In k seen ->
  forall x : IdentityKey, In x seen -> In x kb.
Proof.
  revert kb. induction seen as [|y seen IH]; intros kb Heq Hk x Hx.
  - destruct Hx.
  - destruct kb as [|z kb]; simpl in Heq; inversion Heq; subst.
    + exfalso. apply Hk. left. reflexivity.
    + destruct Hx as [<-|Hx]; [left; reflexivity | right].
      apply (IH kb); [assumption | | assumption].
      intros Hin. apply Hk. right. assumption.
Qed.

Lemma fold_noteKey_split l seen kb k ka :
  ~ In k seen ->
  fold_left noteKey l seen = kb ++ k :: ka ->
  exists pre post,
    l = pre ++ k :: post /\ ~ In k pre /\ forall x, In x pre -> In x kb.
Proof.
  revert seen. induction l as [|x l IH]; intros seen Hk Hfold; simpl in Hfold.
  - exfalso. apply Hk. rewrite Hfold. apply in_app_iff. right. left. reflexivity.
  - destruct (String.eqb_spec x k) as [->|Hne].
    + exists [], l. repeat split; simpl; tauto.
    + assert (Hk' : ~ In k (noteKey seen x)).
      { rewrite noteKey_In. intuition congruence. }
      destruct (IH _ Hk' Hfold) as (pre & post & -> & Hpre & Hsub).
      exists (x :: pre), post. repeat split.
      * simpl. intuition congruence.
      * intros y [<-|Hy]; [|auto].
        destruct (fold_noteKey_prefix (pre ++ k :: post) (noteKey seen x))
          as [added Hadded].
        rewrite Hadded in Hfold.
        apply (prefix_before _ _ _ _ _ Hfold Hk').
        apply noteKey_In. left. reflexivity.
Qed.

Lemma castVote_keys w (m : VoteMap) claim :
  map fst (castVote w m claim) = noteKey (map fst m) (fst claim).
Proof.
  destruct claim as [identity metadata]. unfold castVote, noteKey.
  rewrite mapSet_keys. simpl.
  destruct (mapGet m identity) eqn:Hget.
  - rewrite (proj2 (existsb_eqb_In identity (map fst m))); [reflexivity|].
    destruct (classic_in m identity) as [?|Hout]; [assumption|].
    apply mapGet_None in Hout. congruence.
  - apply mapGet_None in Hget.
    destruct (existsb (String.eqb identity) (map fst m)) eqn:Hex; [|reflexivity].
    apply existsb_eqb_In in Hex. contradiction.
Qed.

Lemma fold_castVote_order w claims (m : VoteMap) :
  map fst (fold_left (castVote w) claims m) =
  fold_left noteKey (map fst claims) (map fst m).
Proof.
  revert m. induction claims as [|claim claims IH]; intros m; cbn [fold_left map].
  - reflexivity.
  - rewrite IH, castVote_keys. reflexivity.
Qed.

Lemma tallyFrom_order ws resolutionResults i (m : VoteMap) :
  map fst (tallyFrom i ws resolutionResults m) =
  fold_left noteKey (map fst (allClaims resolutionResults)) (map fst m).
Proof.
  unfold allClaims.
  revert i m. induction resolutionResults as [|r rest IH]; intros i m; simpl.
  - reflexivity.
  - rewrite IH, fold_castVote_order, map_app, fold_left_app. reflexivity.
Qed.

(** The vote map lists the identities in the order of their first claim. *)
Lemma identityVotes_order ws resolutionResults :
  map fst (identityVotes ws resolutionResults) =
  firstSeen (map fst (allClaims resolutionResults)).
Proof. apply tallyFrom_order. Qed.

(** * The vote in the arithmetic of doubles: facts *)

Lemma exactArithmetic_laws : DoubleLaws exactArithmetic.
Proof.
  split.
  - intros [p|] [q|] Hp Hq; try discriminate. simpl.
    rewrite !Qle_bool_iff. lra.
  - intros [p|] [q|] [r|]; simpl; try discriminate.
    rewrite !Qle_bool_iff. lra.
  - intros [p|] [q|] Hp Hq; try discriminate.
    change (isPositive (Num (q - p)) = negb (Qle_bool q p)).
    apply eq_true_iff_eq. rewrite isPositive_spec, negb_true_iff.
    rewrite <- not_true_iff_false, Qle_bool_iff. lra.
Qed.

Section AssocFacts.
Context {V : Type}.
Implicit Types (m : list (IdentityKey * V)).

Lemma assocGet_assocSet m k k' v :
  assocGet (assocSet m k v) k' = if String.eqb k' k then Some v else assocGet m k'.
Proof.
  induction m as [|[k0 v0] m IH]; simpl.
  - reflexivity.
  - destruct (String.eqb_spec k k0) as [->|Hne]; simpl.
    + destruct (String.eqb k' k0); reflexivity.
    + rewrite IH. destruct (String.eqb_spec k' k0) as [->|Hne'].
      * destruct (String.eqb_spec k0 k); congruence.
      * reflexivity.
Qed.

Lemma assocSet_keys m k v :
  map fst (assocSet m k v) = noteKey (map fst m) k.
Proof.
  unfold noteKey. induction m as [|[k0 v0] m IH]; simpl.
  - reflexivity.
  - destruct (String.eqb_spec k k0) as [->|Hne]; simpl; [reflexivity|].
    rewrite IH. destruct (existsb (String.eqb k) (map fst m)); reflexivity.
Qed.

Lemma assocGet_In m k v :
  NoDup (map fst m) -> In (k, v) m -> assocGet m k = Some v.
Proof.
  induction m as [|[k0 v0] m IH]; simpl; intros Hnd Hin.
  - destruct Hin.
  - inversion Hnd as [|? ? Hout Hnd']; subst.
    destruct Hin as [Heq|Hin].
    + inversion Heq; subst. rewrite String.eqb_refl. reflexivity.
    + destruct (String.eqb_spec k k0) as [->|Hne].
      * exfalso. apply Hout. apply list_elem_of_In.
        apply (in_map fst) in Hin. exact Hin.
      * apply IH; assumption.
Qed.
End AssocFacts.

Lemma noteKey_NoDup seen k : NoDup seen -> NoDup (noteKey seen k).
Proof.
  intros Hnd. unfold noteKey.
  destruct (existsb (String.eqb k) seen) eqn:Hex; [assumption|].
  apply NoDup_app. split; [assumption|]. split.
  - intros x Hx Hin. apply list_elem_of_In in Hx.
    apply list_elem_of_In in Hin. destruct Hin as [<-|[]].
    apply existsb_eqb_In in Hx. congruence.
  - apply NoDup_singleton.
Qed.

Lemma fold_noteKey_NoDup l seen : NoDup seen -> NoDup (fold_left noteKey l seen).
Proof.
  revert seen. induction l as [|x l IH]; intros seen Hnd; simpl.
  - assumption.
  - apply IH, noteKey_NoDup, Hnd.
Qed.

Lemma fold_noteKey_In l seen x :
  In x (fold_left noteKey l seen) <-> In x l \/ In x seen.
Proof.
  revert seen. induction l as [|y l IH]; intros seen; simpl.
  - tauto.
  - rewrite IH, noteKey_In. intuition congruence.
Qed.

(** The head of a stable sort: the first of the greatest elements. *)
Section StableSortHead.
Context {A : Type} (overtakes : A -> A -> bool) (below : A -> A -> bool).
Hypothesis below_trans :
  forall a b c, below a b = true -> below b c = true -> below a c = true.

Lemma insertBy_In x sorted y :
  In y (insertBy overtakes x sorted) <-> y = x \/ In y sorted.
Proof.
  induction sorted as [|z rest IH]; simpl.
  - intuition congruence.
  - destruct (overtakes x z); simpl; [rewrite IH|]; intuition congruence.
Qed.

Lemma stableSortBy_In l y : In y (stableSortBy overtakes l) <-> In y l.
Proof.
  induction l as [|x l IH]; simpl; [tauto|].
  rewrite insertBy_In, IH. intuition congruence.
Qed.

Lemma stableSortBy_nil l : stableSortBy overtakes l = [] -> l = [].
Proof.
  destruct l as [|x l]; [reflexivity|]. simpl.
  destruct (stableSortBy overtakes l) as [|y rest]; simpl; [discriminate|].
  destruct (overtakes x y); discriminate.
Qed.

Lemma stableSortBy_head l h t :
  (forall x y, In x l -> In y l -> overtakes x y = negb (below y x)) ->
  (forall x y, In x l -> In y l -> below x y = true \/ below y x = true) ->
  stableSortBy overtakes l = h :: t ->
  exists before after,
    l = before ++ h :: after /\
    Forall (fun e => below h e = false) before /\
    Forall (fun e => below e h = true) after.
Proof.
  revert h t. induction l as [|x l IH]; intros h t Hcmp Htotal Hsort;
    simpl in Hsort.
  - discriminate.
  - destruct (stableSortBy overtakes l) as [|h' t'] eqn:Hrest.
    + apply stableSortBy_nil in Hrest. subst l. simpl in Hsort.
      inversion Hsort; subst. exists [], []. repeat split; constructor.
    + assert (Hh' : In h' l).
      { apply stableSortBy_In. rewrite Hrest. left. reflexivity. }
      destruct (IH h' t') as (before & after & Hl & Hbefore & Hafter).
      { intros a b Ha Hb. apply Hcmp; right; assumption. }
      { intros a b Ha Hb. apply Htotal; right; assumption. }
      { reflexivity. }
      simpl in Hsort.
      pose proof (Hcmp x h' (or_introl eq_refl) (or_intror Hh')) as Hxh.
      destruct (overtakes x h') eqn:Hover.
      * inversion Hsort; subst h. symmetry in Hxh. apply negb_true_iff in Hxh.
        exists (x :: before), after. rewrite Hl. repeat split.
        -- constructor; assumption.
        -- assumption.
      * inversion Hsort; subst h. symmetry in Hxh. apply negb_false_iff in Hxh.
        exists [], (before ++ h' :: after). rewrite Hl. repeat split.
        -- constructor.
        -- apply Forall_app. split; [|constructor].
           ++ apply Forall_forall. intros e He.
              assert (Hstrict : below h' e = false).
              { revert e He. apply Forall_forall. exact Hbefore. }
              assert (Hel : In e l).
              { rewrite Hl. apply in_app_iff. left.
                apply list_elem_of_In. exact He. }
              destruct (Htotal e h' (or_intror Hel) (or_intror Hh'))
                as [Heh|Hhe]; [|congruence].
              apply (below_trans _ _ _ Heh Hxh).
           ++ assumption.
           ++ eapply Forall_impl; [exact Hafter|]. intros e He. simpl in He.
              apply (below_trans _ _ _ He Hxh).
Qed.
End StableSortHead.

Section EngineFacts.
Variable N : Arithmetic.
Implicit Types (m votes : list (IdentityKey * Engine.Vote N)).

Lemma engine_castVote_keys w m claim :
  map fst (Engine.castVote N w m claim) = noteKey (map fst m) (fst claim).
Proof. destruct claim as [identity metadata]. apply assocSet_keys. Qed.

Lemma engine_castVote_voteOf w m claim k :
  Engine.voteOf N (Engine.castVote N w m claim) k =
  if String.eqb k (fst claim)
  then numAdd N (Engine.voteOf N m k) (numMul N w (confidence (snd claim)))
  else Engine.voteOf N m k.
Proof.
  destruct claim as [identity metadata]. unfold Engine.voteOf, Engine.castVote.
  rewrite assocGet_assocSet. simpl.
  destruct (String.eqb_spec k identity) as [->|Hne]; reflexivity.
Qed.

Lemma engine_tallyFrom_flat i ws rs m :
  Engine.tallyFrom N i ws rs m =
  fold_left (fun votes wc => Engine.castVote N (fst wc) votes (snd wc))
            (Engine.weightedClaimsFrom i ws rs) m.
Proof.
  revert i m. induction rs as [|r rest IH]; intros i m; simpl.
  - reflexivity.
  - rewrite fold_left_app, IH. f_equal.
    generalize (identities r), m. clear.
    intros claims. induction claims as [|claim claims IH]; intros m; simpl.
    + reflexivity.
    + apply IH.
Qed.

Lemma engine_weightedClaims_keys i ws rs :
  map (fun wc => fst (snd wc)) (Engine.weightedClaimsFrom i ws rs) =
  map fst (allClaims rs).
Proof.
  unfold allClaims. revert i. induction rs as [|r rest IH]; intros i; simpl.
  - reflexivity.
  - rewrite !map_app, IH, map_map. reflexivity.
Qed.

Lemma engine_fold_keys (wcs : list (option Q * (IdentityKey * ClaimMetadata))) m :
  map fst (fold_left (fun votes wc => Engine.castVote N (fst wc) votes (snd wc))
                     wcs m) =
  fold_left noteKey (map (fun wc => fst (snd wc)) wcs) (map fst m).
Proof.
  revert m. induction wcs as [|wc wcs IH]; intros m; cbn [fold_left map].
  - reflexivity.
  - rewrite IH, engine_castVote_keys. reflexivity.
Qed.

Lemma engine_fold_voteOf (wcs : list (option Q * (IdentityKey * ClaimMetadata))) m k :
  Engine.voteOf N
    (fold_left (fun votes wc => Engine.castVote N (fst wc) votes (snd wc)) wcs m) k =
  fold_left (numAdd N)
    (map (fun wc => numMul N (fst wc) (confidence (snd (snd wc))))
         (filter (fun wc => fst (snd wc) = k) wcs))
    (Engine.voteOf N m k).
Proof.
  revert m. induction wcs as [|wc wcs IH]; intros m; cbn [fold_left].
  - reflexivity.
  - rewrite IH, engine_castVote_voteOf, filter_cons.
    destruct (String.eqb_spec k (fst (snd wc))) as [->|Hne].
    + rewrite decide_True by reflexivity. reflexivity.
    + rewrite decide_False by congruence. reflexivity.
Qed.

(** The vote map lists the identities in the order of their first claim. *)
Lemma engine_identityVotes_order ws rs :
  map fst (Engine.identityVotes N ws rs) = firstSeen (map fst (allClaims rs)).
Proof.
  unfold Engine.identityVotes. rewrite engine_tallyFrom_flat, engine_fold_keys.
  rewrite engine_weightedClaims_keys. reflexivity.
Qed.

Lemma engine_identityVotes_keys ws rs k :
  In k (map fst (Engine.identityVotes N ws rs)) <-> claimed rs k.
Proof.
  rewrite engine_identityVotes_order. unfold firstSeen, claimed.
  rewrite fold_noteKey_In. simpl. tauto.
Qed.

Lemma engine_identityVotes_NoDup ws rs :
  NoDup (map fst (Engine.identityVotes N ws rs)).
Proof.
  rewrite engine_identityVotes_order. apply fold_noteKey_NoDup, NoDup_nil_2.
Qed.

(** The total the loop holds for a key is the running sum of its products. *)
Lemma engine_identityVotes_accumulated ws rs k :
  Engine.voteOf N (Engine.identityVotes N ws rs) k = Engine.accumulatedVote N ws rs k.
Proof.
  unfold Engine.identityVotes. rewrite engine_tallyFrom_flat.
  apply engine_fold_voteOf.
Qed.

Lemma engine_voteOf_entry votes k v :
  NoDup (map fst votes) -> In (k, v) votes ->
  Engine.voteOf N votes k = Engine.totalWeight v.
Proof.
  intros Hnd Hin. unfold Engine.voteOf.
  rewrite (assocGet_In _ _ _ Hnd Hin). reflexivity.
Qed.

Hypothesis laws : DoubleLaws N.

(** Where no total is [NaN], the entry [sort] puts first has a greatest
    total, and every entry inserted before it a strictly smaller one. *)
Lemma engine_highestVoted_head votes :
  NoDup (map fst votes) -> votes <> [] ->
  (forall k, In k (map fst votes) -> numIsNaN N (Engine.voteOf N votes k) = false) ->
  exists k before after,
    Engine.highestVoted N votes = Ok k /\
    map fst votes = before ++ k :: after /\
    (forall k', In k' before ->
       numLeb N (Engine.voteOf N votes k) (Engine.voteOf N votes k') = false) /\
    (forall k', In k' after ->
       numLeb N (Engine.voteOf N votes k') (Engine.voteOf N votes k) = true).
Proof.
  intros Hnd Hne Hnum.
  set (below := fun a b : IdentityKey * Engine.Vote N =>
                  numLeb N (Engine.totalWeight (snd a)) (Engine.totalWeight (snd b))).
  set (overtakes := fun a b : IdentityKey * Engine.Vote N =>
                      numPositive N (Engine.byDescendingWeight N a b)).
  assert (Hentry : forall e, In e votes ->
            Engine.voteOf N votes (fst e) = Engine.totalWeight (snd e)).
  { intros [k v] Hin. apply engine_voteOf_entry; assumption. }
  assert (Hnan : forall e, In e votes ->
            numIsNaN N (Engine.totalWeight (snd e)) = false).
  { intros e Hin. rewrite <- (Hentry e Hin). apply Hnum, in_map, Hin. }
  destruct (stableSortBy overtakes votes) as [|h t] eqn:Hsort.
  { apply stableSortBy_nil in Hsort. contradiction. }
  destruct (stableSortBy_head overtakes below) with (l := votes) (h := h) (t := t)
    as (before & after & Hsplit & Hbefore & Hafter).
  - intros a b c. apply (numLeb_trans N laws).
  - intros x y Hx Hy. apply (numSub_positive N laws); apply Hnan; assumption.
  - intros x y Hx Hy. apply (numLeb_total N laws); apply Hnan; assumption.
  - exact Hsort.
  - assert (Hh : In h votes).
    { rewrite Hsplit. apply in_app_iff. right. left. reflexivity. }
    exists (fst h), (map fst before), (map fst after). split; [|split; [|split]].
    + unfold Engine.highestVoted. fold overtakes. rewrite Hsort. reflexivity.
    + rewrite Hsplit, map_app. reflexivity.
    + intros k' Hk'. apply in_map_iff in Hk'. destruct Hk' as (e & <- & He).
      assert (Hel : In e votes).
      { rewrite Hsplit. apply in_app_iff. left. exact He. }
      rewrite (Hentry h Hh), (Hentry e Hel).
      apply list_elem_of_In in He. clear Hel.
      revert e He. apply Forall_forall. exact Hbefore.
    + intros k' Hk'. apply in_map_iff in Hk'. destruct Hk' as (e & <- & He).
      assert (Hel : In e votes).
      { rewrite Hsplit. apply in_app_iff. right. right. exact He. }
      rewrite (Hentry h Hh), (Hentry e Hel).
      apply list_elem_of_In in He. clear Hel.
      revert e He. apply Forall_forall. exact Hafter.
Qed.

(** The winner of the vote: a claimed identity with a greatest total, the
    first claimed of those. *)
Lemma engine_consensus ws rs :
  allClaims rs <> [] -> Engine.totalsAreNumbers N ws rs ->
  exists k earlier later,
    Engine.highestVoted N (Engine.identityVotes N ws rs) = Ok k /\
    map fst (allClaims rs) = earlier ++ k :: later /\
    ~ In k earlier /\
    (forall k', In k' earlier ->
       numLeb N (Engine.voteOf N (Engine.identityVotes N ws rs) k)
                (Engine.voteOf N (Engine.identityVotes N ws rs) k') = false) /\
    (forall k', claimed rs k' ->
       numLeb N (Engine.voteOf N (Engine.identityVotes N ws rs) k')
                (Engine.voteOf N (Engine.identityVotes N ws rs) k) = true).
Proof.
  intros Hne Hnum.
  assert (Hvotes : Engine.identityVotes N ws rs <> []).
  { intros Hnil. apply (f_equal (map fst)) in Hnil.
    rewrite engine_identityVotes_order in Hnil.
    destruct (allClaims rs) as [|[k0 md] claims]; [congruence|].
    assert (Hin : In k0 (firstSeen (map fst ((k0, md) :: claims)))).
    { apply fold_noteKey_In. left. left. reflexivity. }
    rewrite Hnil in Hin. destruct Hin. }
  destruct (engine_highestVoted_head _ (engine_identityVotes_NoDup ws rs) Hvotes)
    as (k & before & after & Hwin & Hsplit & Hbefore & Hafter).
  { intros k Hk. apply Hnum. apply (engine_identityVotes_keys ws). exact Hk. }
  pose proof (engine_identityVotes_order ws rs) as Horder.
  rewrite Hsplit in Horder. symmetry in Horder.
  destruct (fold_noteKey_split _ [] _ _ _ (fun H => H) Horder)
    as (earlier & later & Hclaims & Hfirst & Hsub).
  assert (Hk : claimed rs k).
  { apply (engine_identityVotes_keys ws). rewrite Hsplit.
    apply in_app_iff. right. left. reflexivity. }
  exists k, earlier, later. repeat split; try assumption.
  - intros k' Hk'. apply Hbefore, Hsub, Hk'.
  - intros k' Hk'. pose proof Hk' as Hin.
    apply (engine_identityVotes_keys ws) in Hin.
    rewrite Hsplit, in_app_iff in Hin. simpl in Hin.
    destruct Hin as [Hin|[<-|Hin]].
    + destruct (numLeb_total N laws _ _ (Hnum k' Hk') (Hnum k Hk)) as [H|H];
        [exact H|]. rewrite (Hbefore k' Hin) in H. discriminate.
    + destruct (numLeb_total N laws _ _ (Hnum k Hk) (Hnum k Hk)); assumption.
    + apply Hafter, Hin.
Qed.
End EngineFacts.

(** The laws hold on the notable doubles, none of which is [NaN]. *)
Lemma doubleArithmetic_laws_tried :
  forallb (fun v => negb (numIsNaN doubleArithmetic v)) notableDoubles = true /\
  lawsHoldOn doubleArithmetic notableDoubles = true.
Proof. split; vm_compute; reflexivity. Qed.

(** * Claims about the consensus identity *)

Lemma identityVotes_no_claims ws resolutionResults :
  allClaims resolutionResults = [] -> identityVotes ws resolutionResults = [].
Proof.
  intros Hnil. apply (map_eq_nil fst).
  rewrite identityVotes_order, Hnil. reflexivity.
Qed.

(** C1. The consensus identity returned by [#establishConsensusIdentity] is a
    claimed identity whose accumulated vote is maximal among all claimed
    identities, whenever some claim exists and no total is [NaN].  The
    accumulated vote is the total the code holds, in the arithmetic of the
    engine: the products of strategy weight and confidence of the claims for
    the identity, added one after the other in visiting order.  In
    Scenario 1, computed in doubles, the vote of "A" is the double 1.05, the
    vote of "B" is the double 0.8, and the consensus is "A". *)
Theorem consensus_identity_has_maximal_vote :
  (forall (N : Arithmetic), DoubleLaws N ->
   forall (D G Attrs : Type) (this : IdentityCollaborators D G Attrs)
          (ws : list Q) (rs : list Resolution),
      calculateResolutionWeights this rs = Ok ws ->
      allClaims rs <> [] ->
      Engine.totalsAreNumbers N ws rs ->
      exists k,
        Engine.establishConsensusIdentity N this rs = Ok k /\
        claimed rs k /\
        Engine.voteOf N (Engine.identityVotes N ws rs) k
          = Engine.accumulatedVote N ws rs k /\
        forall k', claimed rs k' ->
          numLeb N (Engine.accumulatedVote N ws rs k')
                   (Engine.accumulatedVote N ws rs k) = true)
  /\
  (Engine.voteOf doubleArithmetic
     (Engine.identityVotes doubleArithmetic scenario1Weights scenario1) "A"
     = doubleOf 1.05 /\
   Engine.voteOf doubleArithmetic
     (Engine.identityVotes doubleArithmetic scenario1Weights scenario1) "B"
     = doubleOf 0.8 /\
   forall (D G Attrs : Type) (this : IdentityCollaborators D G Attrs),
     calculateResolutionWeights this scenario1 = Ok scenario1Weights ->
     Engine.establishConsensusIdentity doubleArithmetic this scenario1 = Ok "A").
Proof.
  split.
  - intros N laws D G Attrs this ws rs Hws Hne Hnum.
    destruct (engine_consensus N laws ws rs Hne Hnum)
      as (k & earlier & later & Hwin & Hsplit & _ & _ & Hmax).
    exists k. split; [|split; [|split]].
    + unfold Engine.establishConsensusIdentity. rewrite Hws. exact Hwin.
    + unfold claimed. rewrite Hsplit. apply in_app_iff. right. left. reflexivity.
    + apply engine_identityVotes_accumulated.
    + intros k' Hk'. rewrite <- !engine_identityVotes_accumulated.
      apply Hmax, Hk'.
  - split; [|split].
    + vm_compute. reflexivity.
    + vm_compute. reflexivity.
    + intros D G Attrs this Hws. unfold Engine.establishConsensusIdentity.
      rewrite Hws. vm_compute. reflexivity.
Qed.

Lemma consensus_identity_has_maximal_vote_witness :
  Engine.establishConsensusIdentity exactArithmetic
    (scripted (Ok noClaims) (Ok noClaims) (Ok noClaims) (Ok noClaims)
              scenario1Weights) scenario1 = Ok "A" /\
  forall k', claimed scenario1 k' ->
    numLeb exactArithmetic
      (Engine.accumulatedVote exactArithmetic scenario1Weights scenario1 k')
      (Engine.accumulatedVote exactArithmetic scenario1Weights scenario1 "A") = true.
Proof.
  destruct (proj1 consensus_identity_has_maximal_vote
              exactArithmetic exactArithmetic_laws
              unit CustomerIdentityGraph unit
              (scripted (Ok noClaims) (Ok noClaims) (Ok noClaims) (Ok noClaims)
                        scenario1Weights)
              scenario1Weights scenario1)
    as (k & Hk & _ & _ & Hmax).
  - reflexivity.
  - discriminate.
  - intros k' Hk'. simpl in Hk'.
    destruct Hk' as [<-|[<-|[<-|[]]]]; reflexivity.
  - split; [reflexivity|]. vm_compute in Hk. injection Hk as <-. exact Hmax.
Defined.

(** C2 (as stated, refuted).  In Scenario 3 "A" and "B" tie for the maximum
    vote, "A" has three contributing sources and "B" one, and "A" is the
    lexicographically smaller key: the specification's tie-break selects
    "A", the code returns "B", the key claimed first.  Moving the first
    strategy's result to the end, same claims and same weights, makes the
    code return "A". *)
Lemma tie_break_by_sources_counterexample :
  (numValue (voteOf scenario3Votes "A") == 0.75)%Q /\
  (numValue (voteOf scenario3Votes "B") == 0.75)%Q /\
  length (sourcesOf scenario3Votes "A") = 3 /\
  length (sourcesOf scenario3Votes "B") = 1 /\
  specConsensus scenario3Votes = Some "A" /\
  establishConsensusIdentity uniformCollaborators scenario3 = Ok "B" /\
  establishConsensusIdentity uniformCollaborators scenario3Reordered = Ok "A".
Proof. repeat split; reflexivity. Qed.

(** C2 (amended).  When [#establishConsensusIdentity] returns [k] and no
    total is [NaN], then [k] has a maximal total, and every identity claimed
    before the first claim of [k], in the order the strategies and their
    claims are visited, has a strictly smaller total: among the identities
    tied for the maximum the code returns the one claimed first.  The totals
    are the ones the code holds, in the arithmetic of the engine; the numbers
    of contributing sources and the spelling of the keys play no part.  In
    doubles, with weights 1 and 1, "A" and "B" claimed at confidence 1 by the
    first strategy and "B" again at confidence 2^-53 by the second, both
    totals are 1 and the code returns "A", claimed first. *)
Theorem consensus_tie_goes_to_first_claimed :
  (forall (N : Arithmetic), DoubleLaws N ->
   forall (D G Attrs : Type) (this : IdentityCollaborators D G Attrs)
          (ws : list Q) (rs : list Resolution) (k : IdentityKey),
     calculateResolutionWeights this rs = Ok ws ->
     Engine.totalsAreNumbers N ws rs ->
     Engine.establishConsensusIdentity N this rs = Ok k ->
     exists earlier later,
       map fst (allClaims rs) = earlier ++ k :: later /\
       ~ In k earlier /\
       (forall k', In k' earlier ->
          numLeb N (Engine.voteOf N (Engine.identityVotes N ws rs) k)
                   (Engine.voteOf N (Engine.identityVotes N ws rs) k') = false) /\
       (forall k', claimed rs k' ->
          numLeb N (Engine.voteOf N (Engine.identityVotes N ws rs) k')
                   (Engine.voteOf N (Engine.identityVotes N ws rs) k) = true))
  /\
  (Engine.voteOf doubleArithmetic
     (Engine.identityVotes doubleArithmetic uniformWeights roundedTie) "A"
     = doubleOf 1 /\
   Engine.voteOf doubleArithmetic
     (Engine.identityVotes doubleArithmetic uniformWeights roundedTie) "B"
     = doubleOf 1 /\
   Engine.establishConsensusIdentity doubleArithmetic uniformCollaborators roundedTie
     = Ok "A").
Proof.
  split.
  - intros N laws D G Attrs this ws rs k Hws Hnum Hk.
    unfold Engine.establishConsensusIdentity in Hk. rewrite Hws in Hk. simpl in Hk.
    assert (Hne : allClaims rs <> []).
    { intros Hnil.
      assert (Hvotes : Engine.identityVotes N ws rs = []).
      { apply (map_eq_nil fst). rewrite engine_identityVotes_order, Hnil.
        reflexivity. }
      rewrite Hvotes in Hk. discriminate. }
    destruct (engine_consensus N laws ws rs Hne Hnum)
      as (k0 & earlier & later & Hwin & Hsplit & Hfirst & Hbefore & Hmax).
    assert (k0 = k) as -> by congruence.
    exists earlier, later. repeat split; assumption.
  - repeat split; vm_compute; reflexivity.
Qed.

Lemma consensus_tie_goes_to_first_claimed_witness :
  exists earlier later,
    map fst (allClaims scenario3) = earlier ++ "B" :: later /\
    ~ In "B" earlier /\
    (forall k', In k' earlier ->
       numLeb exactArithmetic
         (Engine.voteOf exactArithmetic
            (Engine.identityVotes exactArithmetic uniformWeights scenario3) "B")
         (Engine.voteOf exactArithmetic
            (Engine.identityVotes exactArithmetic uniformWeights scenario3) k')
       = false) /\
    (forall k', claimed scenario3 k' ->
       numLeb exactArithmetic
         (Engine.voteOf exactArithmetic
            (Engine.identityVotes exactArithmetic uniformWeights scenario3) k')
         (Engine.voteOf exactArithmetic
            (Engine.identityVotes exactArithmetic uniformWeights scenario3) "B")
       = true).
Proof.
  apply (proj1 consensus_tie_goes_to_first_claimed
           exactArithmetic exactArithmetic_laws
           unit CustomerIdentityGraph unit
           uniformCollaborators uniformWeights scenario3 "B").
  - reflexivity.
  - intros k' Hk'. simpl in Hk'.
    repeat (destruct Hk' as [<-|Hk']; [reflexivity|]). destruct Hk'.
  - reflexivity.
Defined.

(** * Vote monotonicity *)

Lemma claimSum_app w c1 c2 k :
  (claimSum w (c1 ++ c2) k == claimSum w c1 k + claimSum w c2 k)%Q.
Proof.
  induction c1 as [|[identity metadata] c1 IH]; simpl.
  - lra.
  - destruct (String.eqb k identity); lra.
Qed.

Lemma accumulatedVoteFrom_app i ws rs1 rs2 k :
  (accumulatedVoteFrom i ws (rs1 ++ rs2) k ==
   accumulatedVoteFrom i ws rs1 k
   + accumulatedVoteFrom (i + length rs1) ws rs2 k)%Q.
Proof.
  revert i. induction rs1 as [|r rs1 IH]; intros i; simpl.
  - rewrite Nat.add_0_r. lra.
  - rewrite IH. replace (S i + length rs1) with (i + S (length rs1)) by lia. lra.
Qed.

(** One more claim for [X] adds its weighted confidence to the sum. *)
Lemma accumulatedVote_extended ws rs1 c1 c2 rs2 X metadata :
  (accumulatedVote ws (rs1 ++ {| identities := c1 ++ (X, metadata) :: c2 |} :: rs2) X
   == accumulatedVote ws (rs1 ++ {| identities := c1 ++ c2 |} :: rs2) X
      + strategyWeight ws (length rs1) * confidence metadata)%Q.
Proof.
  unfold accumulatedVote. rewrite !accumulatedVoteFrom_app. simpl.
  rewrite !claimSum_app. simpl. rewrite String.eqb_refl. lra.
Qed.

(** C8. Vote monotonicity: adding to some strategy's claims one more claim
    for identity [X], with positive confidence and under a non-negative
    strategy weight, never decreases the vote that the loop of
    [#establishConsensusIdentity] accumulates for [X]. *)
Theorem vote_monotone
    (ws : list Q) (rs1 rs2 : list Resolution)
    (c1 c2 : list (IdentityKey * ClaimMetadata))
    (X : IdentityKey) (metadata : ClaimMetadata) :
  length (rs1 ++ {| identities := c1 ++ c2 |} :: rs2) <= length ws ->
  (0 <= strategyWeight ws (length rs1))%Q ->
  (0 < confidence metadata)%Q ->
  exists before after,
    voteOf (identityVotes ws (rs1 ++ {| identities := c1 ++ c2 |} :: rs2)) X
      = Num before /\
    voteOf (identityVotes ws
              (rs1 ++ {| identities := c1 ++ (X, metadata) :: c2 |} :: rs2)) X
      = Num after /\
    (before <= after)%Q.
Proof.
  intros Hlen Hw Hc.
  destruct (identityVotes_voteOf ws _ X Hlen) as (p & Hp & Hpeq).
  destruct (identityVotes_voteOf ws
              (rs1 ++ {| identities := c1 ++ (X, metadata) :: c2 |} :: rs2) X)
    as (q & Hq & Hqeq).
  { rewrite length_app in *. simpl in *. exact Hlen. }
  exists p, q. split; [assumption|]. split; [assumption|].
  rewrite Hpeq, Hqeq, accumulatedVote_extended.
  assert (0 <= strategyWeight ws (length rs1) * confidence metadata)%Q
    by (apply Qmult_le_0_compat; lra).
  lra.
Qed.

Lemma vote_monotone_witness :
  exists before after,
    voteOf (identityVotes scenario1Weights
              [ {| identities := [claimOf "A" "strategy1" 0.9] |};
                {| identities := [] ++ [] |};
                {| identities := [claimOf "B" "strategy3" 0.8] |} ]) "A"
      = Num before /\
    voteOf (identityVotes scenario1Weights scenario1) "A" = Num after /\
    (before <= after)%Q.
Proof.
  apply (vote_monotone scenario1Weights
           [ {| identities := [claimOf "A" "strategy1" 0.9] |} ]
           [ {| identities := [claimOf "B" "strategy3" 0.8] |} ]
           [] [] "A"
           {| source := "strategy2"; relationship := "same_person";
              confidence := 0.3; temporalScope := (0%Z, 0%Z) |}).
  - simpl. lia.
  - vm_compute. discriminate.
  - reflexivity.
Defined.

(** * Awaiting *)

Lemma await_Ok {A B : Type} (v : A) (k : A -> Outcome B) : (x ← Ok v; k x) = k v.
Proof. reflexivity. Qed.

Lemma await_Throw {A B : Type} (e : JSError) (k : A -> Outcome B) :
  (x ← Throw e; k x) = Throw e.
Proof. reflexivity. Qed.

Lemma await_fulfilled {A B : Type} (p : Outcome A) (k : A -> Outcome B) (b : B) :
  (x ← p; k x) = Ok b -> exists a, p = Ok a /\ k a = Ok b.
Proof. destruct p as [a|e]; [eauto | discriminate]. Qed.

Lemma promiseAll_rejected {A : Type} (promises : list (Outcome A)) e :
  In (Throw e) promises ->
  exists e', In (Throw e') promises /\ promiseAll promises = Throw e'.
Proof.
  induction promises as [|p rest IH]; intros Hin; [destruct Hin|].
  destruct p as [v|e0].
  - destruct Hin as [Heq|Hin]; [discriminate|].
    destruct (IH Hin) as (e' & Hin' & Hall).
    exists e'. split; [right; assumption|]. simpl. rewrite Hall. reflexivity.
  - exists e0. split; [left|]; reflexivity.
Qed.

Lemma promiseAll_throws {A : Type} (promises : list (Outcome A)) e :
  promiseAll promises = Throw e -> In (Throw e) promises.
Proof.
  induction promises as [|p rest IH]; simpl; [discriminate|].
  destruct p as [v|e0]; simpl.
  - destruct (promiseAll rest) as [vs|e1]; simpl; [discriminate|].
    intros Heq. inversion Heq; subst. right. apply IH. reflexivity.
  - intros Heq. inversion Heq; subst. left. reflexivity.
Qed.

Lemma promiseAll_fulfilled {A : Type} (promises : list (Outcome A)) vs :
  promiseAll promises = Ok vs -> promises = map Ok vs.
Proof.
  revert vs. induction promises as [|p rest IH]; intros vs Hall; simpl in Hall.
  - inversion Hall. reflexivity.
  - apply await_fulfilled in Hall as (v & -> & Hall).
    apply await_fulfilled in Hall as (vs' & Hrest & Hall).
    inversion Hall; subst. simpl. rewrite (IH vs' Hrest). reflexivity.
Qed.

Lemma forOf_app {S A : Type} (body : S -> A -> Outcome S) xs ys s :
  forOf body (xs ++ ys) s = (s' ← forOf body xs s; forOf body ys s').
Proof.
  revert s. induction xs as [|x xs IH]; intros s; simpl.
  - reflexivity.
  - destruct (body s x) as [s'|e]; simpl; [apply IH | reflexivity].
Qed.

Lemma forOf_nested {S A B : Type} (body : S -> B -> Outcome S) (inner : A -> list B)
    xs s :
  forOf (fun s x => forOf body (inner x) s) xs s =
  forOf body (concat (map inner xs)) s.
Proof.
  revert s. induction xs as [|x xs IH]; intros s; simpl.
  - reflexivity.
  - rewrite forOf_app. destruct (forOf body (inner x) s); simpl;
      [apply IH | reflexivity].
Qed.

(** * Claims about [#resolveCustomerIdentity] *)

Section ResolverFacts.
Context {D G Attrs : Type} `{IdentityGraphOps G}.
Variable this : IdentityCollaborators D G Attrs.

Lemma no_evidence_no_claims promises rs :
  Forall noEvidence promises -> promiseAll promises = Ok rs -> allClaims rs = [].
Proof.
  intros Hnone Hall. apply promiseAll_fulfilled in Hall. subst promises.
  unfold allClaims. induction rs as [|r rs IH]; [reflexivity|].
  apply Forall_cons in Hnone as [Hr Hrs]. simpl in *. rewrite Hr. auto.
Qed.

Lemma establishConsensusIdentity_no_claims rs :
  allClaims rs = [] ->
  match calculateResolutionWeights this rs with
  | Ok _ => establishConsensusIdentity this rs = Throw TypeError
  | Throw e => establishConsensusIdentity this rs = Throw e
  end.
Proof.
  intros Hnil. unfold establishConsensusIdentity.
  destruct (calculateResolutionWeights this rs) as [ws|e]; [|reflexivity].
  simpl. rewrite (identityVotes_no_claims ws rs Hnil). reflexivity.
Qed.

Lemma resolveCustomerIdentity_graph dataStreams initialIdentifier resolved :
  resolveCustomerIdentity this dataStreams initialIdentifier = Ok resolved ->
  exists rs,
    promiseAll (resolutionPromises this dataStreams) = Ok rs /\
    buildIdentityGraph initialIdentifier rs = Ok (identityGraph resolved).
Proof.
  unfold resolveCustomerIdentity. intros Hres.
  apply await_fulfilled in Hres as (rs & Hall & Hres).
  apply await_fulfilled in Hres as (k & _ & Hres).
  apply await_fulfilled in Hres as (g & Hgraph & Hres).
  apply await_fulfilled in Hres as (master & _ & Hres).
  apply await_fulfilled in Hres as (overall & _ & Hres).
  apply await_fulfilled in Hres as (attrs & _ & Hres).
  inversion Hres; subst. simpl. eauto.
Qed.
End ResolverFacts.

(** C3 (as stated, refuted).  When all four strategies return empty claim
    sets the call is rejected with the [TypeError] raised by indexing the
    empty sorted list, not with [NoIdentityEvidenceError]. *)
Lemma no_identity_evidence_error_counterexample :
  resolveCustomerIdentity uniformCollaborators noData "cust-1" = Throw TypeError /\
  resolveCustomerIdentity uniformCollaborators noData "cust-1"
    <> Throw NoIdentityEvidenceError.
Proof. split; [reflexivity | discriminate]. Qed.

(** C3 (amended).  When every strategy fails or returns an empty claim set,
    [#resolveCustomerIdentity] is rejected and returns no result, so nothing
    defaults to the initial identifier.  The code raises no
    [NoIdentityEvidenceError] of its own.  The rejection carries the error of
    a failed strategy when some strategy fails.  When all four return, empty,
    it carries the error of [#calculateResolutionWeights] when that fails,
    and otherwise the [TypeError] raised while taking the winner from the
    empty vote map. *)
Theorem no_evidence_rejects
    (D G Attrs : Type) (ops : IdentityGraphOps G)
    (this : IdentityCollaborators D G Attrs)
    (dataStreams : DataStreams D) (initialIdentifier : IdentityKey) :
  Forall noEvidence (resolutionPromises this dataStreams) ->
  exists e,
    resolveCustomerIdentity this dataStreams initialIdentifier = Throw e /\
    (In (Throw e) (resolutionPromises this dataStreams)
     \/
     exists rs,
       resolutionPromises this dataStreams = map Ok rs /\
       allClaims rs = [] /\
       (calculateResolutionWeights this rs = Throw e
        \/
        fulfilled (calculateResolutionWeights this rs) /\ e = TypeError)).
Proof.
  intros Hnone. unfold resolveCustomerIdentity.
  destruct (promiseAll (resolutionPromises this dataStreams)) as [rs|e] eqn:Hall.
  - pose proof (no_evidence_no_claims _ rs Hnone Hall) as Hnil.
    pose proof (establishConsensusIdentity_no_claims this rs Hnil) as Hcons.
    apply promiseAll_fulfilled in Hall. rewrite await_Ok.
    destruct (calculateResolutionWeights this rs) as [ws|e] eqn:Hws;
      rewrite Hcons, await_Throw.
    + exists TypeError. split; [reflexivity|]. right. exists rs.
      split; [assumption|]. split; [assumption|]. right.
      split; [exists ws; exact Hws | reflexivity].
    + exists e. split; [reflexivity|]. right. exists rs.
      split; [assumption|]. split; [assumption|]. left. exact Hws.
  - exists e. split; [reflexivity|]. left.
    apply promiseAll_throws. exact Hall.
Qed.

Lemma no_evidence_rejects_witness :
  exists e,
    resolveCustomerIdentity uniformCollaborators noData "cust-1" = Throw e /\
    (In (Throw e) (resolutionPromises uniformCollaborators noData)
     \/
     exists rs,
       resolutionPromises uniformCollaborators noData = map Ok rs /\
       allClaims rs = [] /\
       (calculateResolutionWeights uniformCollaborators rs = Throw e
        \/
        fulfilled (calculateResolutionWeights uniformCollaborators rs) /\
        e = TypeError)).
Proof.
  apply (no_evidence_rejects unit CustomerIdentityGraph unit specGraphOps
           uniformCollaborators noData "cust-1").
  repeat constructor.
Defined.

(** C5 (as stated, refuted).  The email strategy fails and the other three
    return: the call is rejected with the email strategy's error.  Had the
    failed strategy counted as an empty claim set, the call would have
    completed. *)
Lemma failed_strategy_absorbed_counterexample :
  resolveCustomerIdentity emailDown noData "cust-1"
    = Throw (OtherError "email index unavailable") /\
  ~ fulfilled (resolveCustomerIdentity emailDown noData "cust-1") /\
  fulfilled (resolveCustomerIdentity emailSilent noData "cust-1").
Proof.
  split; [reflexivity|]. split.
  - intros [v Hv]. discriminate.
  - eexists. vm_compute. reflexivity.
Qed.

(** C5 (amended).  A strategy failure is not absorbed: when any of the four
    strategies fails, [#resolveCustomerIdentity] is rejected with the error
    of a failed strategy; it completes only if all four strategies return. *)
Theorem strategy_failure_rejects_resolution
    (D G Attrs : Type) (ops : IdentityGraphOps G)
    (this : IdentityCollaborators D G Attrs)
    (dataStreams : DataStreams D) (initialIdentifier : IdentityKey)
    (e : JSError) :
  In (Throw e) (resolutionPromises this dataStreams) ->
  exists e',
    In (Throw e') (resolutionPromises this dataStreams) /\
    resolveCustomerIdentity this dataStreams initialIdentifier = Throw e'.
Proof.
  intros Hin. destruct (promiseAll_rejected _ e Hin) as (e' & Hin' & Hall).
  exists e'. split; [assumption|].
  unfold resolveCustomerIdentity. rewrite Hall. reflexivity.
Qed.

Lemma strategy_failure_rejects_resolution_witness :
  exists e',
    In (Throw e') (resolutionPromises emailDown noData) /\
    resolveCustomerIdentity emailDown noData "cust-1" = Throw e'.
Proof.
  apply (strategy_failure_rejects_resolution unit CustomerIdentityGraph unit
           specGraphOps emailDown noData "cust-1"
           (OtherError "email index unavailable")).
  left. reflexivity.
Defined.

(** * The identity graph *)

Section GraphFacts.
Implicit Types (g : CustomerIdentityGraph) (k : IdentityKey).

Lemma hasNode_specAddNode g identity metadata g' k :
  specAddNode g identity metadata = Ok g' ->
  hasNode g k = true -> hasNode g' k = true.
Proof.
  unfold specAddNode, hasNode. intros Hadd Hk. inversion Hadd; subst; simpl.
  apply bool_decide_eq_true in Hk. apply bool_decide_eq_true.
  destruct (decide (identity = k)) as [->|Hne].
  - rewrite lookup_insert_eq. eauto.
  - rewrite lookup_insert_ne by assumption. assumption.
Qed.

Lemma specAddNode_wellFormed g identity metadata g' :
  specAddNode g identity metadata = Ok g' -> wellFormed g -> wellFormed g'.
Proof.
  intros Hadd Hwf. unfold wellFormed in *.
  assert (graphEdges g' = graphEdges g) as ->
    by (unfold specAddNode in Hadd; inversion Hadd; reflexivity).
  eapply Forall_impl; [exact Hwf|]. simpl. intros e [Hfrom Hto].
  split; eapply hasNode_specAddNode; eassumption.
Qed.

Lemma specAddEdge_fulfilled g from to metadata g' :
  specAddEdge g from to metadata = Ok g' ->
  hasNode g from = true /\ hasNode g to = true /\
  graphNodes g' = graphNodes g /\
  graphEdges g' = graphEdges g ++
    [{| edgeFrom := from; edgeTo := to; edgeData := metadata |}].
Proof.
  unfold specAddEdge. destruct (hasNode g from), (hasNode g to); simpl;
    intros Hadd; inversion Hadd; subst; auto.
Qed.

Lemma specAddEdge_wellFormed g from to metadata g' :
  specAddEdge g from to metadata = Ok g' -> wellFormed g -> wellFormed g'.
Proof.
  intros Hadd Hwf.
  apply specAddEdge_fulfilled in Hadd as (Hfrom & Hto & Hnodes & Hedges).
  unfold wellFormed, hasNode in *. rewrite Hedges, Hnodes.
  apply Forall_app. split; [assumption|]. constructor; [|constructor].
  simpl. auto.
Qed.

Lemma runCall_wellFormed g call g' :
  runCall g call = Ok g' -> wellFormed g -> wellFormed g'.
Proof.
  destruct call; simpl.
  - apply specAddNode_wellFormed.
  - apply specAddEdge_wellFormed.
Qed.

Lemma runCalls_wellFormed calls g g' :
  forOf runCall calls g = Ok g' -> wellFormed g -> wellFormed g'.
Proof.
  revert g. induction calls as [|call calls IH]; intros g Hrun Hwf; simpl in Hrun.
  - inversion Hrun; subst. assumption.
  - apply await_fulfilled in Hrun as (g1 & Hcall & Hrun).
    eapply IH; [eassumption|]. eapply runCall_wellFormed; eassumption.
Qed.

Lemma emptyGraph_wellFormed : wellFormed emptyGraph.
Proof. constructor. Qed.

End GraphFacts.

(** The construction of lines 44-58 is a sequence of calls on the graph,
    whatever the graph does with them. *)
Lemma linkClaims_applyCall {G : Type} `{IdentityGraphOps G} initial claims (g : G) :
  forOf (linkClaim initial) claims g =
  forOf applyCall (map (edgeCall initial) claims) g.
Proof.
  revert g. induction claims as [|[identity metadata] claims IH]; intros g;
    cbn [forOf map].
  - reflexivity.
  - change (linkClaim initial g (identity, metadata))
      with (applyCall g (edgeCall initial (identity, metadata))).
    destruct (applyCall g (edgeCall initial (identity, metadata)));
      [rewrite !await_Ok; apply IH | reflexivity].
Qed.

Lemma buildIdentityGraph_calls {G : Type} `{IdentityGraphOps G} initial rs :
  buildIdentityGraph initial rs = forOf applyCall (graphCalls initial rs) newGraph.
Proof.
  unfold buildIdentityGraph, graphCalls. cbn [forOf applyCall].
  destruct (addIdentityNode newGraph initial _) as [g|e]; [|reflexivity].
  rewrite !await_Ok.
  rewrite (forOf_nested (linkClaim initial) identities).
  apply linkClaims_applyCall.
Qed.

Lemma graphCalls_nodes initial rs :
  filter (fun call => isAddNode call = true) (graphCalls initial rs) =
  [AddNode initial {| nodeSource := "initial"; nodeConfidence := 1 |}].
Proof.
  unfold graphCalls. rewrite filter_cons, decide_True by reflexivity.
  f_equal. induction (allClaims rs) as [|claim claims IH]; [reflexivity|].
  cbn [map]. rewrite filter_cons, decide_False; [exact IH|].
  simpl. discriminate.
Qed.

(** C4.  After any sequence of addNode/addEdge calls that the graph of the
    specification accepts, every edge has both endpoints present as nodes.
    The construction of [#resolveCustomerIdentity] does not keep to it: on
    any graph it makes one addIdentityNode call, for the initial identifier
    with confidence 1.0 and source 'initial', and then one addIdentityEdge
    call per claim; no claimed identity is inserted as a node.  For the
    customer "cust-1" and one claim for "A", "A" is not a node when the edge
    to it is requested: the graph of the specification rejects the edge with
    [DanglingReferenceError], and so are rejected the construction and
    [#resolveCustomerIdentity].  With "A" inserted before its edge, as the
    initial identifier is, the edge is accepted. *)
Theorem claimed_identity_is_not_inserted :
  (forall calls g, forOf runCall calls newGraph = Ok g -> wellFormed g) /\
  (forall (G : Type) (ops : IdentityGraphOps G) initialIdentifier rs,
     buildIdentityGraph initialIdentifier rs
       = forOf applyCall (graphCalls initialIdentifier rs) newGraph /\
     filter (fun call => isAddNode call = true) (graphCalls initialIdentifier rs)
       = [AddNode initialIdentifier
            {| nodeSource := "initial"; nodeConfidence := 1 |}]) /\
  graphCalls "cust-1" [ {| identities := [claimOf "A" "strategy1" 0.9] |} ]
    = [ AddNode "cust-1" {| nodeSource := "initial"; nodeConfidence := 1 |};
        edgeCall "cust-1" (claimOf "A" "strategy1" 0.9) ] /\
  (g1 ← addIdentityNode newGraph "cust-1"
          {| nodeSource := "initial"; nodeConfidence := 1 |};
   Ok (hasNode g1 "cust-1", hasNode g1 "A")) = Ok (true, false) /\
  buildIdentityGraph "cust-1" [ {| identities := [claimOf "A" "strategy1" 0.9] |} ]
    = (Throw DanglingReferenceError : Outcome CustomerIdentityGraph) /\
  resolveCustomerIdentity claimsA noData "cust-1" = Throw DanglingReferenceError /\
  (g ← forOf runCall callsClaimingA newGraph;
   Ok (hasNode g "A", length (graphEdges g))) = Ok (true, 1).
Proof.
  split; [|split; [|repeat split]].
  - intros calls g Hrun. eapply runCalls_wellFormed; [eassumption|].
    apply emptyGraph_wellFormed.
  - intros G ops initialIdentifier rs. split.
    + apply buildIdentityGraph_calls.
    + apply graphCalls_nodes.
Qed.

Lemma claimed_identity_is_not_inserted_witness :
  exists g, forOf runCall callsClaimingA newGraph = Ok g /\ wellFormed g.
Proof.
  eexists. split; [vm_compute; reflexivity|].
  apply (proj1 claimed_identity_is_not_inserted callsClaimingA). reflexivity.
Defined.

(** * The resolution loop *)

Lemma forOf_ext {S A : Type} (f g : S -> A -> Outcome S) xs s :
  (forall s x, f s x = g s x) -> forOf f xs s = forOf g xs s.
Proof.
  intros Hfg. revert s. induction xs as [|x xs IH]; intros s; simpl.
  - reflexivity.
  - rewrite Hfg. destruct (g s x); simpl; [apply IH | reflexivity].
Qed.

Lemma forOf_map {S A B : Type} (body : S -> B -> Outcome S) (f : A -> B) xs s :
  forOf body (map f xs) s = forOf (fun s x => body s (f x)) xs s.
Proof.
  revert s. induction xs as [|x xs IH]; intros s; simpl.
  - reflexivity.
  - destruct (body s (f x)); simpl; [apply IH | reflexivity].
Qed.

(** * The last conflict of a dimension *)

Lemma lastVisit_cons dimension visit visits :
  lastVisit dimension (visit :: visits) =
  match lastVisit dimension visits with
  | Some later => Some later
  | None => if decide (fst visit = dimension) then Some visit else None
  end.
Proof.
  unfold lastVisit. rewrite filter_cons.
  case_decide; [rewrite last_cons|];
    destruct (last (filter _ visits)); reflexivity.
Qed.

Lemma lastVisit_None dimension visits :
  lastVisit dimension visits = None ->
  Forall (fun visit => fst visit <> dimension) visits.
Proof.
  induction visits as [|visit visits IH]; [constructor|].
  rewrite lastVisit_cons. destruct (lastVisit dimension visits); [discriminate|].
  case_decide; [discriminate|]. intros _. constructor; auto.
Qed.

Lemma lastVisit_Some dimension visits visit :
  lastVisit dimension visits = Some visit ->
  exists earlier later,
    visits = earlier ++ visit :: later /\
    fst visit = dimension /\
    Forall (fun v => fst v <> dimension) later.
Proof.
  induction visits as [|x visits IH]; [discriminate|].
  rewrite lastVisit_cons.
  destruct (lastVisit dimension visits) as [y|] eqn:Hlast.
  - intros Heq. inversion Heq; subst y.
    destruct (IH eq_refl) as (earlier & later & -> & Hd & Hlater).
    exists (x :: earlier), later. auto.
  - case_decide as Hd; [|discriminate]. intros Heq. inversion Heq; subst x.
    exists [], visits. split; [reflexivity|]. split; [assumption|].
    apply lastVisit_None, Hlast.
Qed.

Section ResolutionLoop.
Context {P : Type}.
Variable this : ConflictCollaborators P.

Lemma resolveDimensions_flat detected state :
  forOf (resolveDimension this) detected state =
  forOf (resolveVisit this) (visitOrder detected) state.
Proof.
  unfold visitOrder.
  rewrite <- (forOf_nested (resolveVisit this)
                (fun entry => map (pair (fst entry)) (snd entry))).
  apply forOf_ext. intros s entry. unfold resolveDimension.
  rewrite forOf_map. reflexivity.
Qed.

Lemma resolveVisit_fulfilled state visit state' :
  resolveVisit this state visit = Ok state' ->
  exists r,
    resolutionOf this (snd visit) = Ok r /\
    state' = (assignProperty (fst state) (fst visit) (resolvedValue (snd r)),
              snd state ++ [logEntryOf (fst visit) (snd visit) r]).
Proof.
  unfold resolveVisit, resolveOne, resolutionOf. intros Hstep.
  apply await_fulfilled in Hstep as (strategy & -> & Hstep).
  apply await_fulfilled in Hstep as (resolution & Hres & Hstep).
  rewrite await_Ok, Hres, await_Ok.
  exists (strategy, resolution). split; [reflexivity|].
  inversion Hstep. reflexivity.
Qed.

Lemma resolveVisit_rejected state visit e :
  resolutionOf this (snd visit) = Throw e ->
  resolveVisit this state visit = Throw e.
Proof.
  unfold resolveVisit, resolveOne, resolutionOf. intros Hres.
  destruct (selectResolutionStrategy this (snd visit)) as [strategy|e0];
    simpl in *; [|inversion Hres; reflexivity].
  destruct (match resolutionStrategies this strategy with
            | Some resolve => resolve (snd visit)
            | None => Throw TypeError
            end); simpl in *; [discriminate | inversion Hres; reflexivity].
Qed.

(** The log grows by one entry per visited conflict, in visiting order. *)
Lemma resolveVisits_log visits state state' :
  forOf (resolveVisit this) visits state = Ok state' ->
  exists entries,
    snd state' = snd state ++ entries /\
    Forall2 (fun entry visit =>
               exists r, resolutionOf this (snd visit) = Ok r /\
                         entry = logEntryOf (fst visit) (snd visit) r)
            entries visits.
Proof.
  revert state. induction visits as [|visit visits IH]; intros state Hrun;
    simpl in Hrun.
  - inversion Hrun; subst. exists []. split; [symmetry; apply app_nil_r|].
    constructor.
  - apply await_fulfilled in Hrun as (state1 & Hstep & Hrun).
    apply resolveVisit_fulfilled in Hstep as (r & Hr & ->).
    destruct (IH _ Hrun) as (entries & Hlog & Hall). simpl in Hlog.
    exists (logEntryOf (fst visit) (snd visit) r :: entries). split.
    + rewrite Hlog, <- app_assoc. reflexivity.
    + constructor; eauto.
Qed.

Lemma lookup_assignProperty (object : gmap DimensionName Value) name value k :
  assignProperty object name value !! k =
  if String.eqb name "__proto__" then object !! k
  else if String.eqb k name then Some value else object !! k.
Proof.
  unfold assignProperty. destruct (String.eqb name "__proto__"); [reflexivity|].
  destruct (String.eqb_spec k name) as [->|Hne].
  - apply lookup_insert_eq.
  - apply lookup_insert_ne. congruence.
Qed.

(** Nothing is ever stored under the name "__proto__". *)
Lemma resolveVisits_proto visits state state' :
  forOf (resolveVisit this) visits state = Ok state' ->
  fst state' !! "__proto__" = fst state !! "__proto__".
Proof.
  revert state. induction visits as [|visit visits IH]; intros state Hrun;
    simpl in Hrun.
  - inversion Hrun; subst. reflexivity.
  - apply await_fulfilled in Hrun as (state1 & Hstep & Hrun).
    apply resolveVisit_fulfilled in Hstep as (r & Hr & ->).
    rewrite (IH _ Hrun). cbn [fst]. rewrite lookup_assignProperty.
    destruct (String.eqb_spec (fst visit) "__proto__") as [Heq|Hne];
      [reflexivity|].
    destruct (String.eqb_spec "__proto__" (fst visit)); [congruence | reflexivity].
Qed.

(** The entry of a dimension other than "__proto__" in the resolved profile
    is the value resolved for the last visited conflict of that dimension. *)
Lemma resolveVisits_profile visits state state' dimension :
  dimension <> "__proto__" ->
  forOf (resolveVisit this) visits state = Ok state' ->
  match lastVisit dimension visits with
  | Some visit =>
      exists r, resolutionOf this (snd visit) = Ok r /\
                fst state' !! dimension = Some (resolvedValue (snd r))
  | None => fst state' !! dimension = fst state !! dimension
  end.
Proof.
  intros Hproto.
  revert state. induction visits as [|visit visits IH]; intros state Hrun;
    simpl in Hrun.
  - inversion Hrun; subst. reflexivity.
  - apply await_fulfilled in Hrun as (state1 & Hstep & Hrun).
    apply resolveVisit_fulfilled in Hstep as (r & Hr & ->).
    specialize (IH _ Hrun). cbn [fst] in IH. rewrite lastVisit_cons.
    destruct (lastVisit dimension visits) as [later|]; [exact IH|].
    rewrite lookup_assignProperty in IH.
    case_decide as Hd.
    + exists r. split; [assumption|]. rewrite IH, Hd.
      destruct (String.eqb_spec dimension "__proto__"); [contradiction|].
      rewrite String.eqb_refl. reflexivity.
    + rewrite IH.
      destruct (String.eqb (fst visit) "__proto__"); [reflexivity|].
      destruct (String.eqb_spec dimension (fst visit)); [congruence|reflexivity].
Qed.

Lemma resolveProfileConflicts_fulfilled profileDimensions result :
  resolveProfileConflicts this profileDimensions = Ok result ->
  exists detected,
    detectConflicts this profileDimensions = Ok detected /\
    forOf (resolveVisit this) (visitOrder detected) (∅, [])
      = Ok (resolvedProfile result, resolutionLog result) /\
    detectRemainingConflicts this (resolvedProfile result)
      = Ok (remainingConflicts result).
Proof.
  unfold resolveProfileConflicts. intros Hres.
  apply await_fulfilled in Hres as (detected & Hdet & Hres).
  apply await_fulfilled in Hres as ([rp log] & Hloop & Hres).
  apply await_fulfilled in Hres as (remaining & Hrem & Hres).
  inversion Hres; subst; simpl in *.
  exists detected. rewrite <- resolveDimensions_flat. auto.
Qed.
End ResolutionLoop.

Lemma forOf_rejected {S A : Type} (body : S -> A -> Outcome S) xs x s :
  In x xs -> (forall s', rejected (body s' x)) -> rejected (forOf body xs s).
Proof.
  intros Hin Hx. revert s. induction xs as [|y xs IH]; intros s; [destruct Hin|].
  simpl. destruct Hin as [->|Hin].
  - destruct (Hx s) as [e ->]. exists e. reflexivity.
  - destruct (body s y) as [s'|e]; simpl; [apply IH, Hin | exists e; reflexivity].
Qed.

(** * Claims about [#resolveProfileConflicts] *)

(** C6 (as stated, refuted).  Two conflicts are detected and the chosen
    strategy cannot handle them: its resolver fails with
    [StrategyMismatchError], the whole call is rejected, and no log and no
    remaining conflicts are returned.  And on a call that returns, the log
    already has one entry per detected conflict, so any conflict the detector
    still reports breaks the sum: with two conflicts in one dimension, the
    value resolved for "city" is overwritten by that of "income", a detector
    that checks the resolved profile reports "city", and 2 + 1 is not 2. *)
Lemma no_conflict_lost_counterexample :
  (exists detected,
      detectConflicts (choosing "statistical_consensus") twoDimensions = Ok detected /\
      length (visitOrder detected) = 2) /\
  resolveProfileConflicts (choosing "statistical_consensus") twoDimensions
    = Throw StrategyMismatchError /\
  ~ (exists result,
       resolveProfileConflicts (choosing "statistical_consensus") twoDimensions
         = Ok result /\
       length (resolutionLog result) + length (remainingConflicts result) = 2) /\
  (exists detected result,
      detectConflicts (auditing twoAttributes) twoAttributes = Ok detected /\
      resolveProfileConflicts (auditing twoAttributes) twoAttributes = Ok result /\
      length (visitOrder detected) = 2 /\
      length (resolutionLog result) = 2 /\
      map description (remainingConflicts result) = ["city"] /\
      length (resolutionLog result) + length (remainingConflicts result)
        <> length (visitOrder detected)).
Proof.
  split; [|split; [|split]].
  - eexists. split; reflexivity.
  - reflexivity.
  - intros (result & Hres & _). discriminate.
  - eexists. eexists. split; [reflexivity|]. split; [reflexivity|].
    repeat split; try reflexivity. vm_compute. discriminate.
Qed.

(** C6 (amended).  Every call that returns has logged every detected
    conflict: [|resolutionLog| = |detectedConflicts|].  The remaining
    conflicts are what the detector reports on the resolved profile, so the
    sum [|resolutionLog| + |remainingConflicts|] equals [|detectedConflicts|]
    exactly when that report is empty.  A conflict whose strategy selection or
    resolver fails rejects the whole call; it is not moved to the remaining
    conflicts. *)
Theorem resolution_log_covers_detected_conflicts
    (P : Type) (this : ConflictCollaborators P) (profileDimensions : P) :
  (forall result,
      resolveProfileConflicts this profileDimensions = Ok result ->
      exists detected,
        detectConflicts this profileDimensions = Ok detected /\
        length (resolutionLog result) = length (visitOrder detected) /\
        detectRemainingConflicts this (resolvedProfile result)
          = Ok (remainingConflicts result) /\
        (length (resolutionLog result) + length (remainingConflicts result)
           = length (visitOrder detected)
         <-> remainingConflicts result = [])) /\
  (forall detected visit e,
      detectConflicts this profileDimensions = Ok detected ->
      In visit (visitOrder detected) ->
      resolutionOf this (snd visit) = Throw e ->
      rejected (resolveProfileConflicts this profileDimensions)).
Proof.
  split.
  - intros result Hres.
    apply resolveProfileConflicts_fulfilled in Hres as (detected & Hdet & Hloop & Hrem).
    apply resolveVisits_log in Hloop as (entries & Hlog & Hall).
    simpl in Hlog. subst entries. apply Forall2_length in Hall.
    exists detected. repeat split; try assumption.
    + intros Hsum. apply length_zero_iff_nil. lia.
    + intros ->. simpl. lia.
  - intros detected visit e Hdet Hin Hfail.
    unfold resolveProfileConflicts. rewrite Hdet, await_Ok, resolveDimensions_flat.
    destruct (forOf_rejected (resolveVisit this) (visitOrder detected) visit (∅, []) Hin)
      as [e' He'].
    + intros s'. exists e. apply resolveVisit_rejected, Hfail.
    + rewrite He'. exists e'. reflexivity.
Qed.

Lemma resolution_log_covers_detected_conflicts_witness :
  exists result detected,
    resolveProfileConflicts (choosing "source_reliability") twoDimensions = Ok result /\
    detectConflicts (choosing "source_reliability") twoDimensions = Ok detected /\
    length (resolutionLog result) = length (visitOrder detected) /\
    length (resolutionLog result) = 2.
Proof.
  eexists.
  destruct (proj1 (resolution_log_covers_detected_conflicts Profile
                     (choosing "source_reliability") twoDimensions)
                  _ eq_refl) as (detected & Hdet & Hlen & _).
  exists detected. split; [reflexivity|]. split; [exact Hdet|].
  split; [exact Hlen | reflexivity].
Defined.

Lemma log_follows_visits {P : Type} (this : ConflictCollaborators P) entries visits :
  Forall2 (fun entry visit =>
             exists r, resolutionOf this (snd visit) = Ok r /\
                       entry = logEntryOf (fst visit) (snd visit) r)
          entries visits ->
  map logDimension entries = map fst visits /\
  map logConflict entries = map (fun visit => description (snd visit)) visits.
Proof.
  induction 1 as [|entry visit entries visits (r & _ & ->) _ [IHd IHc]]; simpl.
  - split; reflexivity.
  - rewrite IHd, IHc. split; reflexivity.
Qed.

(** C7 (as stated, refuted).  Conflicts are detected in the dimensions
    "demographic" and "behavioral", in that order: the log lists
    "demographic" before "behavioral" and is not sorted by dimension name. *)
Lemma resolution_log_sorted_counterexample :
  exists result,
    resolveProfileConflicts (choosing "source_reliability") twoDimensions = Ok result /\
    map logDimension (resolutionLog result) = ["demographic"; "behavioral"] /\
    logSorted (resolutionLog result) = false.
Proof. eexists. repeat split; reflexivity. Qed.

(** C7 (amended).  The resolution log is ordered deterministically, in
    detection order: the dimensions in the order the detector lists them and,
    within a dimension, its conflicts in the order the detector lists them.
    The conflicts are resolved one after the other, so no completion order
    enters; the log is not sorted by name. *)
Theorem resolution_log_follows_detection_order
    (P : Type) (this : ConflictCollaborators P) (profileDimensions : P)
    (result : ConflictResolution) :
  resolveProfileConflicts this profileDimensions = Ok result ->
  exists detected,
    detectConflicts this profileDimensions = Ok detected /\
    map logDimension (resolutionLog result) = map fst (visitOrder detected) /\
    map logConflict (resolutionLog result)
      = map (fun visit => description (snd visit)) (visitOrder detected).
Proof.
  intros Hres.
  apply resolveProfileConflicts_fulfilled in Hres as (detected & Hdet & Hloop & _).
  apply resolveVisits_log in Hloop as (entries & Hlog & Hall).
  simpl in Hlog. subst entries.
  exists detected. split; [assumption|]. apply (log_follows_visits this), Hall.
Qed.

Lemma resolution_log_follows_detection_order_witness :
  exists result detected,
    resolveProfileConflicts (choosing "source_reliability") twoDimensions = Ok result /\
    detectConflicts (choosing "source_reliability") twoDimensions = Ok detected /\
    map logDimension (resolutionLog result) = map fst (visitOrder detected) /\
    map fst (visitOrder detected) = ["demographic"; "behavioral"].
Proof.
  eexists.
  destruct (resolution_log_follows_detection_order Profile
              (choosing "source_reliability") twoDimensions _ eq_refl)
    as (detected & Hdet & Hdims & _).
  exists detected. split; [reflexivity|]. split; [exact Hdet|].
  split; [exact Hdims|]. vm_compute in Hdet. injection Hdet as <-. reflexivity.
Defined.

(** C10 (as stated, refuted).  A conflict is detected in a dimension named
    "__proto__": it is resolved and logged, and the resolved profile holds
    nothing for the dimension, the assignment under that name storing no
    property. *)
Lemma resolved_profile_keeps_last_value_counterexample :
  exists detected result,
    detectConflicts (choosing "source_reliability") protoDimension = Ok detected /\
    map fst (visitOrder detected) = ["__proto__"] /\
    resolveProfileConflicts (choosing "source_reliability") protoDimension
      = Ok result /\
    map logDimension (resolutionLog result) = ["__proto__"] /\
    resolvedProfile result !! "__proto__" = None /\
    resolvedProfile result = ∅.
Proof. eexists. eexists. repeat split; reflexivity. Qed.

(** C10 (amended).  In the resolved profile a dimension holds at most one
    value.  A dimension other than "__proto__" with detected conflicts holds
    the value resolved for the last of them in detection order, the earlier
    ones being overwritten; a dimension with no detected conflict has no
    entry, and neither has the dimension "__proto__", detected or not; and
    the log still has one entry per detected conflict. *)
Theorem resolved_profile_keeps_last_conflict_of_dimension
    (P : Type) (this : ConflictCollaborators P) (profileDimensions : P)
    (result : ConflictResolution) :
  resolveProfileConflicts this profileDimensions = Ok result ->
  exists detected,
    detectConflicts this profileDimensions = Ok detected /\
    length (resolutionLog result) = length (visitOrder detected) /\
    resolvedProfile result !! "__proto__" = None /\
    forall dimension,
      dimension <> "__proto__" ->
      (~ In dimension (map fst (visitOrder detected)) /\
       resolvedProfile result !! dimension = None)
      \/
      (exists earlier visit later r,
          visitOrder detected = earlier ++ visit :: later /\
          fst visit = dimension /\
          Forall (fun v => fst v <> dimension) later /\
          resolutionOf this (snd visit) = Ok r /\
          resolvedProfile result !! dimension = Some (resolvedValue (snd r))).
Proof.
  intros Hres.
  apply resolveProfileConflicts_fulfilled in Hres as (detected & Hdet & Hloop & _).
  exists detected. split; [assumption|]. split; [|split].
  - apply resolveVisits_log in Hloop as (entries & Hlog & Hall).
    simpl in Hlog. subst entries. apply (Forall2_length _ _ _ Hall).
  - pose proof (resolveVisits_proto this _ _ _ Hloop) as Hproto.
    cbn [fst] in Hproto. rewrite Hproto. apply lookup_empty.
  - intros dimension Hproto.
    pose proof (resolveVisits_profile this _ _ _ dimension Hproto Hloop) as Hlast.
    simpl in Hlast.
    destruct (lastVisit dimension (visitOrder detected)) as [visit|] eqn:Hvisit.
    + right. destruct Hlast as (r & Hr & Hvalue).
      destruct (lastVisit_Some _ _ _ Hvisit) as (earlier & later & Hsplit & Hd & Hlater).
      exists earlier, visit, later, r. auto.
    + left. split; [|rewrite Hlast; apply lookup_empty].
      apply lastVisit_None in Hvisit. rewrite Forall_forall in Hvisit.
      intros Hin. apply in_map_iff in Hin as (v & Hv & Hin).
      apply (Hvisit v); [apply list_elem_of_In|]; assumption.
Qed.

Lemma resolved_profile_keeps_last_conflict_of_dimension_witness :
  exists result,
    resolveProfileConflicts (choosing "source_reliability") twoAttributes = Ok result /\
    length (resolutionLog result) = 2 /\
    resolvedProfile result !! "__proto__" = None /\
    resolvedProfile result !! "demographic" = Some (VNumber 5000) /\
    resolvedProfile result !! "behavioral" = None.
Proof.
  eexists.
  destruct (resolved_profile_keeps_last_conflict_of_dimension Profile
              (choosing "source_reliability") twoAttributes _ eq_refl)
    as (detected & Hdet & Hlen & Hproto & _).
  vm_compute in Hdet. injection Hdet as <-.
  split; [reflexivity|]. split; [exact Hlen|]. split; [exact Hproto|].
  split; reflexivity.
Defined.

(** C9 (as stated, refuted).  In Scenario 4 the attribute "city" has the one
    distinct value "NYC": nothing is detected or logged, and the resolved
    profile is empty, so it holds no resolved value equal to "NYC", neither
    under the attribute nor under its dimension. *)
Lemma single_valued_attribute_resolved_value_counterexample :
  length (distinctValues 0 [VText "NYC"; VText "NYC"]) = 1 /\
  exists result,
    resolveProfileConflicts (choosing "source_reliability") scenario4 = Ok result /\
    resolutionLog result = [] /\
    resolvedProfile result = ∅ /\
    resolvedProfile result !! "city" <> Some (VText "NYC") /\
    resolvedProfile result !! "demographic" <> Some (VText "NYC").
Proof.
  split; [reflexivity|]. eexists. split; [reflexivity|].
  repeat split; discriminate.
Qed.

Lemma single_valued_not_detected tolerance (profile : Profile) a cands detected :
  length (distinctValues tolerance (map value cands)) = 1 ->
  specDetectConflicts tolerance profile = Ok detected ->
  forall dimension, ~ In (dimension, conflictOf (a, cands)) (visitOrder detected).
Proof.
  intros Hone Hdet dimension Hin. unfold specDetectConflicts in Hdet.
  inversion Hdet; subst detected. clear Hdet. unfold visitOrder in Hin.
  apply in_concat in Hin as (visits & Hvisits & Hin).
  apply in_map_iff in Hvisits as ([d conflicts] & <- & Hentry).
  apply in_map_iff in Hentry as ([d' attrs] & Heq & _).
  inversion Heq; subst. simpl in Hin.
  apply in_map_iff in Hin as (c & Hc & Hin). inversion Hc; subst c.
  unfold specDetectDimension in Hin.
  apply in_map_iff in Hin as ([a' cands'] & Heq' & Hin).
  apply list_elem_of_In, list_elem_of_filter in Hin as [Hconflict _].
  unfold conflictOf in Heq'. simpl in Heq'. inversion Heq'; subst.
  unfold isConflict in Hconflict. simpl in Hconflict.
  rewrite Hone in Hconflict. discriminate.
Qed.

(** C9 (amended).  An attribute whose candidates hold exactly one distinct
    value is left alone by conflict resolution: the detector of the
    specification does not report it, the log has entries for the detected
    conflicts only, and every value of the resolved profile is the value
    resolved for a detected conflict of that dimension.  The resolved profile
    therefore holds no value on behalf of the attribute; the profile that was
    passed in is the only place where its value stays. *)
Theorem single_valued_attribute_bypasses_resolution
    (tolerance : Q) (this : ConflictCollaborators Profile) (profile : Profile)
    (a : AttributeName) (cands : list Candidate) (result : ConflictResolution) :
  detectConflicts this profile = specDetectConflicts tolerance profile ->
  length (distinctValues tolerance (map value cands)) = 1 ->
  resolveProfileConflicts this profile = Ok result ->
  exists detected,
    detectConflicts this profile = Ok detected /\
    (forall dimension,
        ~ In (dimension, conflictOf (a, cands)) (visitOrder detected)) /\
    Forall2 (fun entry visit =>
               exists r, resolutionOf this (snd visit) = Ok r /\
                         entry = logEntryOf (fst visit) (snd visit) r)
            (resolutionLog result) (visitOrder detected) /\
    (forall dimension v,
        resolvedProfile result !! dimension = Some v ->
        exists visit r,
          In visit (visitOrder detected) /\ fst visit = dimension /\
          resolutionOf this (snd visit) = Ok r /\ v = resolvedValue (snd r)).
Proof.
  intros Hspec Hone Hres.
  apply resolveProfileConflicts_fulfilled in Hres as (detected & Hdet & Hloop & _).
  exists detected. split; [assumption|]. split; [|split].
  - rewrite Hspec in Hdet.
    apply (single_valued_not_detected tolerance profile a cands detected Hone Hdet).
  - apply resolveVisits_log in Hloop as (entries & Hlog & Hall).
    simpl in Hlog. subst entries. exact Hall.
  - intros dimension v Hv.
    destruct (String.eqb_spec dimension "__proto__") as [->|Hproto].
    { pose proof (resolveVisits_proto this _ _ _ Hloop) as Hproto.
      cbn [fst] in Hproto. rewrite lookup_empty in Hproto.
      unfold DimensionName in *. congruence. }
    pose proof (resolveVisits_profile this _ _ _ dimension Hproto Hloop) as Hlast.
    simpl in Hlast.
    destruct (lastVisit dimension (visitOrder detected)) as [visit|] eqn:Hvisit.
    + destruct Hlast as (r & Hr & Hvalue).
      destruct (lastVisit_Some _ _ _ Hvisit) as (earlier & later & Hsplit & Hd & _).
      exists visit, r. repeat split; try assumption.
      * rewrite Hsplit. apply in_app_iff. right. left. reflexivity.
      * unfold DimensionName in *. congruence.
    + unfold DimensionName in *. rewrite Hlast, lookup_empty in Hv. discriminate.
Qed.

Lemma single_valued_attribute_bypasses_resolution_witness :
  exists result detected,
    resolveProfileConflicts (choosing "source_reliability") scenario4 = Ok result /\
    detectConflicts (choosing "source_reliability") scenario4 = Ok detected /\
    (forall dimension,
        ~ In (dimension,
              conflictOf ("city", [ observed (VText "NYC") "srcA" 1 0.5;
                                    observed (VText "NYC") "srcB" 2 0.5 ]))
             (visitOrder detected)) /\
    resolutionLog result = [].
Proof.
  eexists.
  destruct (single_valued_attribute_bypasses_resolution 0
              (choosing "source_reliability") scenario4 "city"
              [ observed (VText "NYC") "srcA" 1 0.5;
                observed (VText "NYC") "srcB" 2 0.5 ] _
              eq_refl eq_refl eq_refl)
    as (detected & Hdet & Hnot & _).
  exists detected. split; [reflexivity|]. split; [exact Hdet|].
  split; [exact Hnot | reflexivity].
Defined.

(** * More about the vote map *)

Lemma fold_castVote_sourcesOf w claims (m : VoteMap) k :
  sourcesOf (fold_left (castVote w) claims m) k =
  sourcesOf m k ++
  map (fun claim => source (snd claim)) (filter (fun claim => fst claim = k) claims).
Proof.
  revert m. induction claims as [|claim claims IH]; intros m; cbn [fold_left].
  - cbn. symmetry. apply app_nil_r.
  - rewrite IH, castVote_sourcesOf, filter_cons.
    destruct (String.eqb_spec k (fst claim)) as [->|Hne].
    + rewrite decide_True by reflexivity. simpl. rewrite <- app_assoc. reflexivity.
    + rewrite decide_False by congruence. reflexivity.
Qed.

Lemma tallyFrom_sourcesOf ws resolutionResults i (m : VoteMap) k :
  sourcesOf (tallyFrom i ws resolutionResults m) k =
  sourcesOf m k ++ claimSources resolutionResults k.
Proof.
  unfold claimSources, allClaims.
  revert i m. induction resolutionResults as [|r rest IH]; intros i m; simpl.
  - cbn. symmetry. apply app_nil_r.
  - rewrite IH, fold_castVote_sourcesOf, filter_app, map_app, app_assoc.
    reflexivity.
Qed.

(** X1. The vote map built by [#establishConsensusIdentity] has exactly one
    entry per claimed identity, whatever the weights are, and lists the
    identities in the order of their first claim. *)
Theorem vote_map_has_one_entry_per_claimed_identity
    (ws : list Q) (rs : list Resolution) :
  NoDup (map fst (identityVotes ws rs)) /\
  (forall k, In k (map fst (identityVotes ws rs)) <-> claimed rs k) /\
  map fst (identityVotes ws rs) = firstSeen (map fst (allClaims rs)).
Proof.
  split; [apply identityVotes_NoDup|]. split.
  - intros k. apply identityVotes_keys.
  - apply identityVotes_order.
Qed.

(** X2. The sources recorded for an identity are the sources of its claims,
    one per claim and in visiting order: a source that claims the identity
    twice is recorded twice, and an identity nobody claims has none. *)
Theorem recorded_sources_are_the_claims_sources
    (ws : list Q) (rs : list Resolution) (k : IdentityKey) :
  sourcesOf (identityVotes ws rs) k = claimSources rs k /\
  length (sourcesOf (identityVotes ws rs) k)
    = length (filter (fun claim => fst claim = k) (allClaims rs)).
Proof.
  assert (Hsrc : sourcesOf (identityVotes ws rs) k = claimSources rs k).
  { unfold identityVotes. rewrite tallyFrom_sourcesOf. reflexivity. }
  split; [exact Hsrc|]. rewrite Hsrc. unfold claimSources. apply length_map.
Qed.

Lemma insertSorted_In {A : Type} (compareFn : A -> A -> JSNum) x sorted y :
  In y (insertSorted compareFn x sorted) <-> y = x \/ In y sorted.
Proof.
  induction sorted as [|z sorted IH]; simpl.
  - intuition congruence.
  - destruct (isPositive (compareFn x z)); simpl; [rewrite IH|];
      intuition congruence.
Qed.

Lemma sortStable_In {A : Type} (compareFn : A -> A -> JSNum) l y :
  In y (sortStable compareFn l) <-> In y l.
Proof.
  induction l as [|x l IH]; simpl; [tauto|].
  rewrite insertSorted_In, IH. intuition congruence.
Qed.

Lemma highestVoted_fulfilled (votes : VoteMap) k :
  highestVoted votes = Ok k -> In k (map fst votes).
Proof.
  unfold highestVoted.
  destruct (sortStable byDescendingWeight votes) as [|entry sorted] eqn:Hsort;
    simpl; [discriminate|].
  intros Hk. inversion Hk; subst k. apply in_map.
  apply (sortStable_In byDescendingWeight). rewrite Hsort. left. reflexivity.
Qed.

Lemma highestVoted_nonempty (votes : VoteMap) :
  votes <> [] -> fulfilled (highestVoted votes).
Proof.
  intros Hne. unfold highestVoted, fulfilled.
  destruct (sortStable byDescendingWeight votes) as [|entry sorted] eqn:Hsort.
  - apply sortStable_nil in Hsort. contradiction.
  - simpl. eauto.
Qed.

(** X3. [#establishConsensusIdentity] returns an identity exactly when the
    weights are computed and at least one claim exists, and what it returns
    is always one of the claimed identities; this needs no assumption on the
    weights, not even that every strategy has one. *)
Theorem consensus_returns_exactly_when_some_claim_exists
    (D G Attrs : Type) (this : IdentityCollaborators D G Attrs)
    (rs : list Resolution) :
  (fulfilled (establishConsensusIdentity this rs) <->
   fulfilled (calculateResolutionWeights this rs) /\ allClaims rs <> []) /\
  (forall k, establishConsensusIdentity this rs = Ok k -> claimed rs k).
Proof.
  unfold establishConsensusIdentity.
  destruct (calculateResolutionWeights this rs) as [ws|e]; simpl.
  - split.
    + split.
      * intros [k Hk]. split; [eexists; reflexivity|].
        intros Hnil. rewrite (identityVotes_no_claims ws rs Hnil) in Hk.
        discriminate.
      * intros [_ Hne]. apply highestVoted_nonempty.
        intros Hnil. destruct (allClaims_nonempty rs Hne) as [k Hk].
        apply (identityVotes_keys ws) in Hk. rewrite Hnil in Hk. destruct Hk.
    + intros k Hk. apply (identityVotes_keys ws), highestVoted_fulfilled, Hk.
  - split.
    + split; [intros [k Hk]; discriminate|].
      intros [[ws Hws] _]. discriminate.
    + intros k Hk. discriminate.
Qed.

(** X4. Where no total is [NaN], an identity whose total, as the loop of
    [#establishConsensusIdentity] holds it, is strictly greater than that of
    every other claimed identity is the consensus, wherever its claims stand
    in the visiting order. *)
Theorem strict_maximum_is_the_consensus
    (N : Arithmetic) (laws : DoubleLaws N)
    (D G Attrs : Type) (this : IdentityCollaborators D G Attrs)
    (ws : list Q) (rs : list Resolution) (k : IdentityKey) :
  calculateResolutionWeights this rs = Ok ws ->
  Engine.totalsAreNumbers N ws rs ->
  claimed rs k ->
  (forall k', claimed rs k' -> k' <> k ->
     numLeb N (Engine.voteOf N (Engine.identityVotes N ws rs) k)
              (Engine.voteOf N (Engine.identityVotes N ws rs) k') = false) ->
  Engine.establishConsensusIdentity N this rs = Ok k.
Proof.
  intros Hws Hnum Hk Hstrict.
  assert (Hne : allClaims rs <> []).
  { intros Hnil. unfold claimed in Hk. rewrite Hnil in Hk. destruct Hk. }
  destruct (engine_consensus N laws ws rs Hne Hnum)
    as (k0 & earlier & later & Hwin & Hsplit & _ & _ & Hmax).
  unfold Engine.establishConsensusIdentity. rewrite Hws. simpl. rewrite Hwin.
  destruct (String.eqb_spec k0 k) as [->|Hne0]; [reflexivity|].
  exfalso.
  assert (Hk0 : claimed rs k0).
  { unfold claimed. rewrite Hsplit. apply in_app_iff. right. left. reflexivity. }
  pose proof (Hstrict k0 Hk0 Hne0) as Hlt.
  rewrite (Hmax k Hk) in Hlt. discriminate.
Qed.

Lemma strict_maximum_is_the_consensus_witness :
  Engine.establishConsensusIdentity exactArithmetic
    (scripted (Ok noClaims) (Ok noClaims) (Ok noClaims) (Ok noClaims)
              scenario1Weights) scenario1 = Ok "A".
Proof.
  apply (strict_maximum_is_the_consensus exactArithmetic exactArithmetic_laws
           unit CustomerIdentityGraph unit _ scenario1Weights).
  - reflexivity.
  - intros k' Hk'. simpl in Hk'.
    destruct Hk' as [<-|[<-|[<-|[]]]]; reflexivity.
  - left. reflexivity.
  - intros k' Hk' Hne. simpl in Hk'.
    destruct Hk' as [<-|[<-|[<-|[]]]]; simpl in Hne; try congruence. reflexivity.
Defined.

(** * A missing weight *)

Lemma tallyFrom_app ws rs1 rs2 i (m : VoteMap) :
  tallyFrom i ws (rs1 ++ rs2) m =
  tallyFrom (i + length rs1) ws rs2 (tallyFrom i ws rs1 m).
Proof.
  revert i m. induction rs1 as [|r rs1 IH]; intros i m; simpl.
  - rewrite Nat.add_0_r. reflexivity.
  - rewrite IH. replace (S i + length rs1) with (i + S (length rs1)) by lia.
    reflexivity.
Qed.

Lemma fold_castVote_NaN_stays w claims (m : VoteMap) k :
  voteOf m k = NaN -> voteOf (fold_left (castVote w) claims m) k = NaN.
Proof.
  revert m. induction claims as [|claim claims IH]; intros m Hm; cbn [fold_left].
  - assumption.
  - apply IH. rewrite castVote_voteOf, Hm. destruct (String.eqb k (fst claim));
      reflexivity.
Qed.

Lemma tallyFrom_NaN_stays ws rs i (m : VoteMap) k :
  voteOf m k = NaN -> voteOf (tallyFrom i ws rs m) k = NaN.
Proof.
  revert i m. induction rs as [|r rs IH]; intros i m Hm; simpl.
  - assumption.
  - apply IH, fold_castVote_NaN_stays, Hm.
Qed.

Lemma fold_castVote_unweighted claims (m : VoteMap) k :
  In k (map fst claims) -> voteOf (fold_left (castVote None) claims m) k = NaN.
Proof.
  revert m. induction claims as [|claim claims IH]; intros m Hin; [destruct Hin|].
  cbn [fold_left]. destruct (String.eqb_spec k (fst claim)) as [Heq|Hne].
  - apply fold_castVote_NaN_stays. rewrite castVote_voteOf.
    rewrite (proj2 (String.eqb_eq _ _) Heq). destruct (voteOf m k); reflexivity.
  - apply IH. destruct Hin as [Heq|Hin]; [congruence | assumption].
Qed.

(** X5. When the weight list is shorter than the list of strategy results,
    every identity claimed by a strategy without a weight ends with the total
    [NaN] ([undefined * confidence]), whatever else is claimed for it. *)
Theorem missing_weight_makes_the_total_NaN
    (ws : list Q) (rs1 rs2 : list Resolution) (r : Resolution) (k : IdentityKey) :
  length ws <= length rs1 ->
  In k (map fst (identities r)) ->
  voteOf (identityVotes ws (rs1 ++ r :: rs2)) k = NaN.
Proof.
  intros Hshort Hin. unfold identityVotes. rewrite tallyFrom_app. simpl.
  apply tallyFrom_NaN_stays.
  rewrite (proj2 (nth_error_None ws (length rs1)) Hshort).
  apply fold_castVote_unweighted, Hin.
Qed.

Lemma missing_weight_makes_the_total_NaN_witness :
  voteOf (identityVotes [1%Q] scenario1) "A" = NaN.
Proof.
  apply (missing_weight_makes_the_total_NaN [1%Q]
           [ {| identities := [claimOf "A" "strategy1" 0.9] |} ]
           [ {| identities := [claimOf "B" "strategy3" 0.8] |} ]
           {| identities := [claimOf "A" "strategy2" 0.3] |} "A").
  - simpl. lia.
  - left. reflexivity.
Defined.

(** * More about [#resolveCustomerIdentity] *)

Lemma forOf_recording calls (log : list GraphCall) :
  forOf (applyCall (H := recordingGraph)) calls log = Ok (log ++ calls).
Proof.
  revert log. induction calls as [|call calls IH]; intros log; cbn [forOf].
  - rewrite app_nil_r. reflexivity.
  - destruct call; cbn [applyCall addIdentityNode addIdentityEdge recordingGraph];
      rewrite await_Ok, IH, <- app_assoc; reflexivity.
Qed.

(** X8. Whatever class implements the graph, the graph returned by
    [#resolveCustomerIdentity] is what the graph makes of one addIdentityNode
    call for the initial identifier followed by one addIdentityEdge call per
    claim, in the order the strategies and their claims are visited and with
    repeated claims kept; each edge is requested from the initial identifier
    to the claimed identity and carries the claim's relationship, confidence
    and temporal scope.  On a graph that records its calls, the returned
    graph is this list of calls, one edge call per claim. *)
Theorem identity_graph_has_one_edge_per_claim :
  (forall (D G Attrs : Type) (ops : IdentityGraphOps G)
          (this : IdentityCollaborators D G Attrs)
          (dataStreams : DataStreams D) (initialIdentifier : IdentityKey)
          (resolved : ResolvedIdentity G Attrs),
     resolveCustomerIdentity this dataStreams initialIdentifier = Ok resolved ->
     exists rs,
       promiseAll (resolutionPromises this dataStreams) = Ok rs /\
       forOf applyCall
         (AddNode initialIdentifier {| nodeSource := "initial"; nodeConfidence := 1 |}
          :: map (fun claim =>
                    AddEdge initialIdentifier (fst claim)
                      {| edgeRelationship := relationship (snd claim);
                         edgeConfidence := confidence (snd claim);
                         temporalValidity := temporalScope (snd claim) |})
                 (allClaims rs))
         newGraph
       = Ok (identityGraph resolved))
  /\
  (forall (D Attrs : Type) (this : IdentityCollaborators D (list GraphCall) Attrs)
          (dataStreams : DataStreams D) (initialIdentifier : IdentityKey)
          (resolved : ResolvedIdentity (list GraphCall) Attrs),
     resolveCustomerIdentity (H := recordingGraph) this dataStreams initialIdentifier
       = Ok resolved ->
     exists rs,
       promiseAll (resolutionPromises this dataStreams) = Ok rs /\
       identityGraph resolved = graphCalls initialIdentifier rs /\
       length (filter (fun call => isAddNode call = false) (identityGraph resolved))
         = length (allClaims rs)).
Proof.
  split.
  - intros D G Attrs ops this dataStreams initialIdentifier resolved Hres.
    apply resolveCustomerIdentity_graph in Hres as (rs & Hall & Hg).
    exists rs. split; [assumption|].
    rewrite <- Hg, buildIdentityGraph_calls. reflexivity.
  - intros D Attrs this dataStreams initialIdentifier resolved Hres.
    apply (resolveCustomerIdentity_graph (H := recordingGraph)) in Hres
      as (rs & Hall & Hg).
    exists rs. split; [assumption|].
    rewrite (buildIdentityGraph_calls (H := recordingGraph)), forOf_recording in Hg.
    injection Hg as <-. split; [reflexivity|].
    cbn [newGraph recordingGraph app]. unfold graphCalls.
    rewrite filter_cons, decide_False by (simpl; discriminate).
    induction (allClaims rs) as [|claim claims IH]; [reflexivity|].
    cbn [map]. rewrite filter_cons, decide_True by reflexivity.
    simpl. f_equal. exact IH.
Qed.

Lemma identity_graph_has_one_edge_per_claim_witness :
  exists resolved,
    resolveCustomerIdentity (H := recordingGraph) scenario1OnRecorder noData "cust-1"
      = Ok resolved /\
    identityGraph resolved
      = [ AddNode "cust-1" {| nodeSource := "initial"; nodeConfidence := 1 |};
          edgeCall "cust-1" (claimOf "A" "strategy1" 0.9);
          edgeCall "cust-1" (claimOf "A" "strategy2" 0.3);
          edgeCall "cust-1" (claimOf "B" "strategy3" 0.8) ].
Proof.
  eexists. split; [vm_compute; reflexivity|].
  destruct (proj2 identity_graph_has_one_edge_per_claim unit unit
              scenario1OnRecorder noData "cust-1" _ eq_refl)
    as (rs & Hall & Hcalls & _).
  vm_compute in Hall. injection Hall as <-. exact Hcalls.
Defined.

(** * Failures of [#resolveProfileConflicts] *)

Section ResolutionFailures.
Context {P : Type}.
Variable this : ConflictCollaborators P.

Lemma resolveVisit_total state visit :
  fulfilled (resolutionOf this (snd visit)) ->
  fulfilled (resolveVisit this state visit).
Proof.
  intros [[strategy resolution] Hr]. unfold resolveVisit, resolveOne.
  unfold resolutionOf in Hr.
  apply await_fulfilled in Hr as (strategy' & Hsel & Hr).
  apply await_fulfilled in Hr as (resolution' & Hres & Hr).
  rewrite Hsel, await_Ok, Hres, await_Ok. eexists. reflexivity.
Qed.

Lemma resolveVisits_total visits state :
  Forall (fun visit => fulfilled (resolutionOf this (snd visit))) visits ->
  fulfilled (forOf (resolveVisit this) visits state).
Proof.
  intros Hall. revert state. induction Hall as [|visit visits Hv _ IH];
    intros state; simpl.
  - eexists. reflexivity.
  - destruct (resolveVisit_total state visit Hv) as [state' ->].
    rewrite await_Ok. apply IH.
Qed.

Lemma resolveVisits_first_failure earlier visit later state e :
  Forall (fun v => fulfilled (resolutionOf this (snd v))) earlier ->
  resolutionOf this (snd visit) = Throw e ->
  forOf (resolveVisit this) (earlier ++ visit :: later) state = Throw e.
Proof.
  intros Hearlier Hfail. rewrite forOf_app.
  destruct (resolveVisits_total earlier state Hearlier) as [state' ->].
  rewrite await_Ok. simpl.
  rewrite (resolveVisit_rejected this state' visit e Hfail). reflexivity.
Qed.

Lemma resolveVisits_fulfilled_all visits state :
  fulfilled (forOf (resolveVisit this) visits state) ->
  Forall (fun visit => fulfilled (resolutionOf this (snd visit))) visits.
Proof.
  revert state. induction visits as [|visit visits IH]; intros state [s Hs];
    [constructor|].
  simpl in Hs. apply await_fulfilled in Hs as (state1 & Hstep & Hs).
  constructor.
  - apply resolveVisit_fulfilled in Hstep as (r & Hr & _). exists r. exact Hr.
  - apply (IH state1). exists s. exact Hs.
Qed.

Lemma resolutionStrategies_unknown key :
  key <> "temporal_recency" -> key <> "source_reliability" ->
  key <> "statistical_consensus" -> key <> "contextual_plausibility" ->
  resolutionStrategies this key = None.
Proof.
  intros H1 H2 H3 H4. unfold resolutionStrategies.
  destruct (String.eqb_spec key "temporal_recency"); [contradiction|].
  destruct (String.eqb_spec key "source_reliability"); [contradiction|].
  destruct (String.eqb_spec key "statistical_consensus"); [contradiction|].
  destruct (String.eqb_spec key "contextual_plausibility"); [contradiction|].
  reflexivity.
Qed.
End ResolutionFailures.

(** X10. [#resolveProfileConflicts] is rejected with the error of the first
    conflict, in detection order, whose strategy selection or resolver fails,
    whatever the later conflicts and the remaining-conflict report would
    give; what was resolved before it is not returned. *)
Theorem first_failing_conflict_rejects_the_call
    (P : Type) (this : ConflictCollaborators P) (profileDimensions : P)
    (detected : list (DimensionName * list Conflict))
    (earlier later : list (DimensionName * Conflict))
    (visit : DimensionName * Conflict) (e : JSError) :
  detectConflicts this profileDimensions = Ok detected ->
  visitOrder detected = earlier ++ visit :: later ->
  Forall (fun v => fulfilled (resolutionOf this (snd v))) earlier ->
  resolutionOf this (snd visit) = Throw e ->
  resolveProfileConflicts this profileDimensions = Throw e.
Proof.
  intros Hdet Hsplit Hearlier Hfail. unfold resolveProfileConflicts.
  rewrite Hdet, await_Ok, resolveDimensions_flat, Hsplit.
  rewrite (resolveVisits_first_failure this earlier visit later _ e Hearlier Hfail).
  reflexivity.
Qed.

(** X11. The strategy table has exactly the four keys "temporal_recency",
    "source_reliability", "statistical_consensus" and
    "contextual_plausibility": when [#selectResolutionStrategy] answers
    anything else for a detected conflict, resolving that conflict throws a
    [TypeError] and the call is rejected. *)
Theorem unknown_strategy_key_rejects_the_call
    (P : Type) (this : ConflictCollaborators P) (profileDimensions : P)
    (detected : list (DimensionName * list Conflict))
    (visit : DimensionName * Conflict) (key : string) :
  detectConflicts this profileDimensions = Ok detected ->
  In visit (visitOrder detected) ->
  selectResolutionStrategy this (snd visit) = Ok key ->
  key <> "temporal_recency" -> key <> "source_reliability" ->
  key <> "statistical_consensus" -> key <> "contextual_plausibility" ->
  resolutionOf this (snd visit) = Throw TypeError /\
  rejected (resolveProfileConflicts this profileDimensions).
Proof.
  intros Hdet Hin Hsel H1 H2 H3 H4.
  assert (Hfail : resolutionOf this (snd visit) = Throw TypeError).
  { unfold resolutionOf.
    rewrite Hsel, await_Ok, (resolutionStrategies_unknown this key H1 H2 H3 H4).
    reflexivity. }
  split; [exact Hfail|].
  unfold resolveProfileConflicts. rewrite Hdet, await_Ok, resolveDimensions_flat.
  destruct (forOf_rejected (resolveVisit this) (visitOrder detected) visit (∅, []) Hin)
    as [e' He'].
  - intros s'. exists TypeError. apply resolveVisit_rejected, Hfail.
  - rewrite He'. exists e'. reflexivity.
Qed.

(** X12. When detection succeeds and the remaining-conflict report never
    fails, [#resolveProfileConflicts] returns exactly when every detected
    conflict can be resolved: there is no partial result. *)
Theorem conflicts_resolve_all_or_nothing
    (P : Type) (this : ConflictCollaborators P) (profileDimensions : P)
    (detected : list (DimensionName * list Conflict)) :
  detectConflicts this profileDimensions = Ok detected ->
  (forall resolved, fulfilled (detectRemainingConflicts this resolved)) ->
  (fulfilled (resolveProfileConflicts this profileDimensions) <->
   Forall (fun visit => fulfilled (resolutionOf this (snd visit)))
          (visitOrder detected)).
Proof.
  intros Hdet Hrem. unfold resolveProfileConflicts.
  rewrite Hdet, await_Ok, resolveDimensions_flat. split.
  - intros [result Hres]. apply (resolveVisits_fulfilled_all this _ (∅, [])).
    apply await_fulfilled in Hres as (state & Hloop & _).
    exists state. exact Hloop.
  - intros Hall.
    destruct (resolveVisits_total this (visitOrder detected) (∅, []) Hall)
      as [state ->].
    rewrite await_Ok. destruct (Hrem (fst state)) as [remaining ->].
    rewrite await_Ok. eexists. reflexivity.
Qed.

Lemma first_failing_conflict_rejects_the_call_witness :
  resolveProfileConflicts (choosing "statistical_consensus") twoDimensions
    = Throw StrategyMismatchError.
Proof.
  eapply (first_failing_conflict_rejects_the_call Profile
            (choosing "statistical_consensus") twoDimensions _ []).
  - reflexivity.
  - reflexivity.
  - constructor.
  - reflexivity.
Defined.

Lemma unknown_strategy_key_rejects_the_call_witness :
  rejected (resolveProfileConflicts (choosing "majority_vote") twoDimensions).
Proof.
  eapply (unknown_strategy_key_rejects_the_call Profile
            (choosing "majority_vote") twoDimensions _ _ "majority_vote").
  - reflexivity.
  - left. reflexivity.
  - reflexivity.
  - discriminate.
  - discriminate.
  - discriminate.
  - discriminate.
Defined.

Lemma conflicts_resolve_all_or_nothing_witness :
  fulfilled (resolveProfileConflicts (choosing "source_reliability") twoDimensions)
  <-> Forall (fun visit =>
                fulfilled (resolutionOf (choosing "source_reliability") (snd visit)))
             (visitOrder
                [ ("demographic", specDetectDimension 0
                     [ ("city", [ observed (VText "NYC") "srcA" 1 0.9;
                                  observed (VText "Boston") "srcB" 2 0.4 ]) ]);
                  ("behavioral", specDetectDimension 0
                     [ ("segment", [ observed (VText "loyal") "srcA" 1 0.9;
                                     observed (VText "churning") "srcB" 2 0.4 ]) ]) ]).
Proof.
  apply (conflicts_resolve_all_or_nothing Profile
           (choosing "source_reliability") twoDimensions).
  - reflexivity.
  - intros resolved. eexists. reflexivity.
Defined.

(** * Profile synthesis and the public entry point *)

Section ProfileConstructionFacts.
Context {D G Attrs T Raw Dim Info F R : Type} `{IdentityGraphOps G}.
Variable identity : IdentityCollaborators D G Attrs.
Variable conflicts : ConflictCollaborators (ProfileDimensions Dim).
Variable this : ProfileCollaborators D G Attrs T Raw Dim Info F R.

Lemma synthesizeHolisticProfile_fulfilled now alignedData resolvedIdentity
    freshnessRequirements unified :
  synthesizeHolisticProfile conflicts this now alignedData resolvedIdentity
    freshnessRequirements = Ok unified ->
  synthesizeDimensions this alignedData resolvedIdentity = Ok (profile unified) /\
  resolveProfileConflicts conflicts (profile unified)
    = Ok (conflictResolution unified) /\
  customerId unified = masterCustomerId resolvedIdentity /\
  lastUpdated (metadata unified) = now.
Proof.
  unfold synthesizeHolisticProfile. intros Hsyn.
  apply await_fulfilled in Hsyn as (dims & Hdims & Hsyn).
  apply await_fulfilled in Hsyn as (consistency & _ & Hsyn).
  apply await_fulfilled in Hsyn as (resolution & Hres & Hsyn).
  apply await_fulfilled in Hsyn as (freshness & _ & Hsyn).
  apply await_fulfilled in Hsyn as (completeness & _ & Hsyn).
  apply await_fulfilled in Hsyn as (confidences & _ & Hsyn).
  inversion Hsyn; subst unified; simpl. auto.
Qed.

Lemma resolveProfileConflicts_rejected profileDimensions detected visit e :
  detectConflicts conflicts profileDimensions = Ok detected ->
  In visit (visitOrder detected) ->
  resolutionOf conflicts (snd visit) = Throw e ->
  rejected (resolveProfileConflicts conflicts profileDimensions).
Proof.
  intros Hdet Hin Hfail. unfold resolveProfileConflicts.
  rewrite Hdet, await_Ok, resolveDimensions_flat.
  destruct (forOf_rejected (resolveVisit conflicts) (visitOrder detected) visit
              (∅, []) Hin) as [e' He'].
  - intros s'. exists e. apply resolveVisit_rejected, Hfail.
  - rewrite He'. exists e'. reflexivity.
Qed.
End ProfileConstructionFacts.

(** X13. [#synthesizeHolisticProfile] returns the synthesized dimensions as
    they are: conflict resolution is run on them and its result is returned
    beside them, with one log entry per conflict detected in them, but no
    resolved value is written back into the profile.  The customer id is the
    master id of the resolved identity. *)
Theorem synthesized_profile_is_returned_unresolved
    (D G Attrs T Raw Dim Info F R : Type)
    (conflicts : ConflictCollaborators (ProfileDimensions Dim))
    (this : ProfileCollaborators D G Attrs T Raw Dim Info F R)
    (now : string) (alignedData : AlignedData Raw)
    (resolvedIdentity : ResolvedIdentity G Attrs) (freshnessRequirements : F)
    (unified : UnifiedProfile Dim Info) :
  synthesizeHolisticProfile conflicts this now alignedData resolvedIdentity
    freshnessRequirements = Ok unified ->
  synthesizeDimensions this alignedData resolvedIdentity = Ok (profile unified) /\
  customerId unified = masterCustomerId resolvedIdentity /\
  exists detected,
    detectConflicts conflicts (profile unified) = Ok detected /\
    resolveProfileConflicts conflicts (profile unified)
      = Ok (conflictResolution unified) /\
    length (resolutionLog (conflictResolution unified))
      = length (visitOrder detected).
Proof.
  intros Hsyn.
  apply synthesizeHolisticProfile_fulfilled in Hsyn as (Hdims & Hres & Hid & _).
  split; [assumption|]. split; [assumption|].
  pose proof Hres as Hres'.
  apply resolveProfileConflicts_fulfilled in Hres' as (detected & Hdet & Hloop & _).
  exists detected. split; [assumption|]. split; [assumption|].
  apply resolveVisits_log in Hloop as (entries & Hlog & Hall).
  simpl in Hlog. subst entries. apply (Forall2_length _ _ _ Hall).
Qed.

(** X14. One conflict that cannot be resolved loses the whole synthesized
    profile: when the five dimensions are synthesized, found temporally
    consistent, and the strategy selection or the resolver fails for one
    conflict detected in them, [#synthesizeHolisticProfile] is rejected. *)
Theorem unresolvable_conflict_rejects_the_synthesis
    (D G Attrs T Raw Dim Info F R : Type)
    (conflicts : ConflictCollaborators (ProfileDimensions Dim))
    (this : ProfileCollaborators D G Attrs T Raw Dim Info F R)
    (now : string) (alignedData : AlignedData Raw)
    (resolvedIdentity : ResolvedIdentity G Attrs) (freshnessRequirements : F)
    (dims : ProfileDimensions Dim)
    (detected : list (DimensionName * list Conflict))
    (visit : DimensionName * Conflict) (e : JSError) :
  synthesizeDimensions this alignedData resolvedIdentity = Ok dims ->
  fulfilled (ensureTemporalConsistency this dims freshnessRequirements) ->
  detectConflicts conflicts dims = Ok detected ->
  In visit (visitOrder detected) ->
  resolutionOf conflicts (snd visit) = Throw e ->
  rejected (synthesizeHolisticProfile conflicts this now alignedData
              resolvedIdentity freshnessRequirements).
Proof.
  intros Hdims [consistency Hcons] Hdet Hin Hfail.
  unfold synthesizeHolisticProfile. rewrite Hdims, await_Ok, Hcons, await_Ok.
  destruct (resolveProfileConflicts_rejected conflicts dims detected visit e
              Hdet Hin Hfail) as [e' ->].
  exists e'. reflexivity.
Qed.

(** X15. A failing identity strategy rejects the public entry point: when
    the raw data are ingested and one of the four strategies fails on them,
    [constructUnifiedCustomerProfile] is rejected with the error of a failed
    strategy, and no profile is built. *)
Theorem failing_strategy_rejects_the_profile_construction
    (D G Attrs T Raw Dim Info F R : Type) (ops : IdentityGraphOps G)
    (identity : IdentityCollaborators D G Attrs)
    (conflicts : ConflictCollaborators (ProfileDimensions Dim))
    (this : ProfileCollaborators D G Attrs T Raw Dim Info F R)
    (now : string) (customerIdentifier : IdentityKey) (freshnessRequirements : F)
    (rawDataStreams : DataStreams D) (e : JSError) :
  ingestMultiSourceCustomerData this customerIdentifier = Ok rawDataStreams ->
  In (Throw e) (resolutionPromises identity rawDataStreams) ->
  exists e',
    In (Throw e') (resolutionPromises identity rawDataStreams) /\
    constructUnifiedCustomerProfile identity conflicts this now
      customerIdentifier freshnessRequirements = Throw e'.
Proof.
  intros Hingest Hin.
  destruct (promiseAll_rejected _ e Hin) as (e' & Hin' & Hall).
  exists e'. split; [assumption|].
  unfold constructUnifiedCustomerProfile, resolveCustomerIdentity.
  rewrite Hingest, await_Ok, Hall. reflexivity.
Qed.

Lemma synthesized_profile_is_returned_unresolved_witness :
  exists unified,
    synthesizeHolisticProfile (choosingFor "source_reliability")
      (passingOn workedAligned) "2024-01-01T00:00:00.000Z" workedAligned
      workedIdentity tt = Ok unified /\
    synthesizeDimensions (passingOn workedAligned) workedAligned workedIdentity
      = Ok (profile unified) /\
    length (resolutionLog (conflictResolution unified)) = 2.
Proof.
  eexists.
  edestruct (synthesized_profile_is_returned_unresolved
               unit CustomerIdentityGraph unit unit WorkedDimension
               WorkedDimension string unit (UnifiedProfile WorkedDimension string)
               (choosingFor "source_reliability") (passingOn workedAligned)
               "2024-01-01T00:00:00.000Z" workedAligned workedIdentity tt)
    as (Hdims & _ & detected & _ & _ & _).
  - reflexivity.
  - split; [reflexivity|]. split; [exact Hdims | reflexivity].
Defined.

Lemma unresolvable_conflict_rejects_the_synthesis_witness :
  rejected
    (synthesizeHolisticProfile (choosingFor "statistical_consensus")
       (passingOn workedAligned) "2024-01-01T00:00:00.000Z" workedAligned
       workedIdentity tt).
Proof.
  eapply (unresolvable_conflict_rejects_the_synthesis
            unit CustomerIdentityGraph unit unit WorkedDimension
            WorkedDimension string unit (UnifiedProfile WorkedDimension string)
            (choosingFor "statistical_consensus") (passingOn workedAligned)).
  - reflexivity.
  - eexists. reflexivity.
  - reflexivity.
  - left. reflexivity.
  - reflexivity.
Defined.

Lemma failing_strategy_rejects_the_profile_construction_witness :
  exists e',
    In (Throw e') (resolutionPromises emailDown noData) /\
    constructUnifiedCustomerProfile emailDown (choosingFor "source_reliability")
      (passingOn workedAligned) "2024-01-01T00:00:00.000Z" "cust-1" tt = Throw e'.
Proof.
  apply (failing_strategy_rejects_the_profile_construction
           unit CustomerIdentityGraph unit unit WorkedDimension
           WorkedDimension string unit (UnifiedProfile WorkedDimension string)
           specGraphOps emailDown (choosingFor "source_reliability")
           (passingOn workedAligned) "2024-01-01T00:00:00.000Z" "cust-1" tt
           noData (OtherError "email index unavailable")).
  - reflexivity.
  - left. reflexivity.
Defined.

(** * Real-time enrichment *)

Section EnrichmentFacts.
Context {Prof Ev Opp E U Info : Type}.
Variable this : EnrichmentCollaborators Prof Ev Opp E U Info.

Lemma enrichmentLoop_app es1 es2 p rs :
  enrichmentLoop this (es1 ++ es2) p rs =
  match enrichmentLoop this es1 p rs with
  | (p1, Ok rs1) => enrichmentLoop this es2 p1 rs1
  | (p1, Throw e) => (p1, Throw e)
  end.
Proof.
  revert p rs. induction es1 as [|next es1 IH]; intros p rs; simpl.
  - reflexivity.
  - destruct (executeEnrichmentPipeline this next p) as [result|e];
      [|reflexivity].
    destruct (requiresProfileUpdate result); [|apply IH].
    destruct (applyProfileUpdate this p (enrichment result)) as [updated [[]|e]];
      [apply IH | reflexivity].
Qed.

Lemma enrichmentLoop_results es p rs p' rs' :
  enrichmentLoop this es p rs = (p', Ok rs') ->
  exists new, rs' = rs ++ new /\ length new = length es.
Proof.
  revert p rs. induction es as [|next es IH]; intros p rs Hloop; simpl in Hloop.
  - inversion Hloop; subst. exists []. split; [symmetry; apply app_nil_r|].
    reflexivity.
  - destruct (executeEnrichmentPipeline this next p) as [result|e];
      [|discriminate].
    assert (Hrest : exists p1, enrichmentLoop this es p1 (rs ++ [result])
                               = (p', Ok rs')).
    { destruct (requiresProfileUpdate result); [|eauto].
      destruct (applyProfileUpdate this p (enrichment result))
        as [updated [[]|e]]; [eauto | discriminate]. }
    destruct Hrest as [p1 Hrest].
    destruct (IH _ _ Hrest) as (new & -> & Hlen).
    exists (result :: new). split; [rewrite <- app_assoc; reflexivity|].
    simpl. rewrite Hlen. reflexivity.
Qed.

Lemma enrichmentLoop_untouched es p rs :
  (forall next result,
      In next es -> executeEnrichmentPipeline this next p = Ok result ->
      requiresProfileUpdate result = false) ->
  fst (enrichmentLoop this es p rs) = p.
Proof.
  revert rs. induction es as [|next es IH]; intros rs Hnone; simpl.
  - reflexivity.
  - destruct (executeEnrichmentPipeline this next p) as [result|e] eqn:Hrun;
      [|reflexivity].
    rewrite (Hnone next result (or_introl eq_refl) Hrun).
    apply IH. intros next' result' Hin. apply Hnone. right. assumption.
Qed.

Lemma enrichmentLoop_prefix es1 es2 p rs p' rs' :
  enrichmentLoop this (es1 ++ es2) p rs = (p', Ok rs') ->
  exists p1 rs1,
    enrichmentLoop this es1 p rs = (p1, Ok rs1) /\
    enrichmentLoop this es2 p1 rs1 = (p', Ok rs').
Proof.
  rewrite enrichmentLoop_app.
  destruct (enrichmentLoop this es1 p rs) as [p1 [rs1|e]]; [eauto | discriminate].
Qed.

Lemma enrichProfileInRealTime_fulfilled p events context p' report :
  enrichProfileInRealTime this p events context = (p', Ok report) ->
  exists prioritized,
    planEnrichments this p events context = Ok prioritized /\
    enrichmentLoop this prioritized p [] = (p', Ok (appliedEnrichments report)) /\
    enrichedProfile report = p'.
Proof.
  unfold enrichProfileInRealTime.
  destruct (planEnrichments this p events context) as [prioritized|e];
    [|discriminate].
  destruct (enrichmentLoop this prioritized p []) as [enriched [results|e]]
    eqn:Hloop; [|discriminate].
  intros Hreport. inversion Hreport as [[Hp Hout]]. subst enriched.
  apply await_fulfilled in Hout as (consistency & _ & Hout).
  apply await_fulfilled in Hout as (metrics & _ & Hout).
  inversion Hout; subst report; simpl.
  exists prioritized. auto.
Qed.
End EnrichmentFacts.

(** X16. When [enrichProfileInRealTime] returns, [appliedEnrichments] holds
    one result per prioritized enrichment, whether or not the result asked
    for a profile update, and [enrichedProfile] is the caller's profile as
    the call left it. *)
Theorem every_executed_enrichment_is_reported
    (Prof Ev Opp E U Info : Type)
    (this : EnrichmentCollaborators Prof Ev Opp E U Info)
    (customerProfile : Prof) (incomingEvents : Ev)
    (context : EnrichmentContext Info)
    (leftBehind : Prof) (report : EnrichmentReport Prof U Info) :
  enrichProfileInRealTime this customerProfile incomingEvents context
    = (leftBehind, Ok report) ->
  exists prioritized,
    planEnrichments this customerProfile incomingEvents context = Ok prioritized /\
    length (appliedEnrichments report) = length prioritized /\
    enrichedProfile report = leftBehind.
Proof.
  intros Hrun.
  apply enrichProfileInRealTime_fulfilled in Hrun as (prioritized & Hplan & Hloop & Hp).
  exists prioritized. split; [assumption|]. split; [|assumption].
  apply enrichmentLoop_results in Hloop as (new & Hnew & Hlen).
  simpl in Hnew. subst new. exact Hlen.
Qed.

(** X17. The caller's profile is left as it was when no enrichment, run on
    it, asks for a profile update; this holds whether the call returns or is
    rejected, and in particular when nothing is prioritized or the planning
    fails. *)
Theorem profile_is_untouched_when_no_update_is_requested
    (Prof Ev Opp E U Info : Type)
    (this : EnrichmentCollaborators Prof Ev Opp E U Info)
    (customerProfile : Prof) (incomingEvents : Ev)
    (context : EnrichmentContext Info) :
  (forall prioritized next result,
      planEnrichments this customerProfile incomingEvents context = Ok prioritized ->
      In next prioritized ->
      executeEnrichmentPipeline this next customerProfile = Ok result ->
      requiresProfileUpdate result = false) ->
  fst (enrichProfileInRealTime this customerProfile incomingEvents context)
    = customerProfile.
Proof.
  intros Hnone. unfold enrichProfileInRealTime.
  destruct (planEnrichments this customerProfile incomingEvents context)
    as [prioritized|e] eqn:Hplan; [|reflexivity].
  pose proof (enrichmentLoop_untouched this prioritized customerProfile []
                (fun next result => Hnone prioritized next result eq_refl)) as Hp.
  destruct (enrichmentLoop this prioritized customerProfile [])
    as [enriched [results|e]]; exact Hp.
Qed.

(** X18. Every enrichment is executed on the profile as the enrichments
    before it left it, and its result stands at its own position in
    [appliedEnrichments]. *)
Theorem enrichment_runs_on_the_profile_updated_so_far
    (Prof Ev Opp E U Info : Type)
    (this : EnrichmentCollaborators Prof Ev Opp E U Info)
    (customerProfile : Prof) (incomingEvents : Ev)
    (context : EnrichmentContext Info)
    (leftBehind : Prof) (report : EnrichmentReport Prof U Info)
    (earlier later : list E) (next : E) :
  enrichProfileInRealTime this customerProfile incomingEvents context
    = (leftBehind, Ok report) ->
  planEnrichments this customerProfile incomingEvents context
    = Ok (earlier ++ next :: later) ->
  exists soFar results result,
    enrichmentLoop this earlier customerProfile [] = (soFar, Ok results) /\
    executeEnrichmentPipeline this next soFar = Ok result /\
    nth_error (appliedEnrichments report) (length earlier) = Some result.
Proof.
  intros Hrun Hplan.
  apply enrichProfileInRealTime_fulfilled in Hrun as (prioritized & Hplan' & Hloop & _).
  rewrite Hplan in Hplan'. inversion Hplan'; subst prioritized. clear Hplan'.
  apply enrichmentLoop_prefix in Hloop as (soFar & results & Hearlier & Hrest).
  exists soFar, results.
  pose proof (enrichmentLoop_results this _ _ _ _ _ Hearlier) as (new & Hnew & Hlen).
  simpl in Hnew. subst new.
  simpl in Hrest.
  destruct (executeEnrichmentPipeline this next soFar) as [result|e];
    [|discriminate].
  exists result. split; [assumption|]. split; [reflexivity|].
  assert (Hlater : exists p1, enrichmentLoop this later p1 (results ++ [result])
                              = (leftBehind, Ok (appliedEnrichments report))).
  { destruct (requiresProfileUpdate result); [|eauto].
    destruct (applyProfileUpdate this soFar (enrichment result))
      as [updated [[]|e]]; [eauto | discriminate]. }
  destruct Hlater as [p1 Hlater].
  apply enrichmentLoop_results in Hlater as (new & -> & _).
  rewrite <- app_assoc, nth_error_app2 by lia.
  rewrite Hlen, Nat.sub_diag. reflexivity.
Qed.

(** X19. A rejected call does not roll the profile back: when the pipeline
    of an enrichment fails, the call is rejected with that error and the
    caller's profile keeps every update applied for the enrichments before
    it. *)
Theorem failed_enrichment_keeps_the_earlier_updates
    (Prof Ev Opp E U Info : Type)
    (this : EnrichmentCollaborators Prof Ev Opp E U Info)
    (customerProfile : Prof) (incomingEvents : Ev)
    (context : EnrichmentContext Info)
    (earlier later : list E) (next : E)
    (soFar : Prof) (results : list (EnrichmentResult U)) (e : JSError) :
  planEnrichments this customerProfile incomingEvents context
    = Ok (earlier ++ next :: later) ->
  enrichmentLoop this earlier customerProfile [] = (soFar, Ok results) ->
  executeEnrichmentPipeline this next soFar = Throw e ->
  enrichProfileInRealTime this customerProfile incomingEvents context
    = (soFar, Throw e).
Proof.
  intros Hplan Hearlier Hfail. unfold enrichProfileInRealTime.
  rewrite Hplan, enrichmentLoop_app, Hearlier. simpl. rewrite Hfail. reflexivity.
Qed.

(** X20. When the events are processed and one of the four opportunity
    detectors fails, [enrichProfileInRealTime] is rejected with the error of
    a failed detector and the caller's profile is left as it was. *)
Theorem failing_detector_rejects_the_enrichment
    (Prof Ev Opp E U Info : Type)
    (this : EnrichmentCollaborators Prof Ev Opp E U Info)
    (customerProfile : Prof) (incomingEvents processedEvents : Ev)
    (context : EnrichmentContext Info) (e : JSError) :
  processEventStream this incomingEvents = Ok processedEvents ->
  In (Throw e)
     [ behavioralPatternDetect this processedEvents customerProfile;
       preferenceInferenceDetect this processedEvents customerProfile;
       lifecycleStageDetect this processedEvents customerProfile;
       propensityModelDetect this processedEvents customerProfile ] ->
  exists e',
    In (Throw e')
       [ behavioralPatternDetect this processedEvents customerProfile;
         preferenceInferenceDetect this processedEvents customerProfile;
         lifecycleStageDetect this processedEvents customerProfile;
         propensityModelDetect this processedEvents customerProfile ] /\
    enrichProfileInRealTime this customerProfile incomingEvents context
      = (customerProfile, Throw e').
Proof.
  intros Hprocess Hin.
  destruct (promiseAll_rejected _ e Hin) as (e' & Hin' & Hall).
  exists e'. split; [exact Hin'|].
  unfold enrichProfileInRealTime, planEnrichments,
    identifyEnrichmentOpportunities.
  rewrite Hprocess, await_Ok, Hall. reflexivity.
Qed.

Lemma every_executed_enrichment_is_reported_witness :
  exists report prioritized,
    enrichProfileInRealTime tagging ["gold"] ["gold"; "traveller"] anyContext
      = (["gold"; "traveller"], Ok report) /\
    planEnrichments tagging ["gold"] ["gold"; "traveller"] anyContext
      = Ok prioritized /\
    length (appliedEnrichments report) = length prioritized /\
    map requiresProfileUpdate (appliedEnrichments report) = [false; true].
Proof.
  eexists.
  edestruct (every_executed_enrichment_is_reported _ _ _ _ _ _ tagging
               ["gold"] ["gold"; "traveller"] anyContext)
    as (prioritized & Hplan & Hlen & _).
  - reflexivity.
  - exists prioritized. split; [reflexivity|]. split; [exact Hplan|].
    split; [exact Hlen | reflexivity].
Defined.

Lemma profile_is_untouched_when_no_update_is_requested_witness :
  fst (enrichProfileInRealTime tagging ["gold"; "traveller"] ["gold"] anyContext)
    = ["gold"; "traveller"].
Proof.
  apply (profile_is_untouched_when_no_update_is_requested _ _ _ _ _ _ tagging).
  intros prioritized next result Hplan Hin Hrun.
  vm_compute in Hplan. injection Hplan as <-.
  destruct Hin as [<-|[]]. vm_compute in Hrun. injection Hrun as <-. reflexivity.
Defined.

Lemma enrichment_runs_on_the_profile_updated_so_far_witness :
  exists report soFar results result,
    enrichProfileInRealTime tagging [] ["gold"; "gold"] anyContext
      = (["gold"], Ok report) /\
    enrichmentLoop tagging ["gold"] [] [] = (soFar, Ok results) /\
    executeEnrichmentPipeline tagging "gold" soFar = Ok result /\
    nth_error (appliedEnrichments report) 1 = Some result /\
    requiresProfileUpdate result = false.
Proof.
  eexists.
  edestruct (enrichment_runs_on_the_profile_updated_so_far _ _ _ _ _ _ tagging
               [] ["gold"; "gold"] anyContext)
    with (earlier := ["gold"]) (later := @nil string) (next := "gold")
    as (soFar & results & result & Hearlier & Hrun & Hnth).
  - reflexivity.
  - reflexivity.
  - exists soFar, results, result. split; [reflexivity|].
    split; [exact Hearlier|]. split; [exact Hrun|]. split; [exact Hnth|].
    vm_compute in Hearlier. injection Hearlier as <- <-.
    vm_compute in Hrun. injection Hrun as <-. reflexivity.
Defined.

Lemma failed_enrichment_keeps_the_earlier_updates_witness :
  enrichProfileInRealTime tagging [] ["gold"; "broken"; "traveller"] anyContext
    = (["gold"], Throw (OtherError "pipeline failed")).
Proof.
  apply (failed_enrichment_keeps_the_earlier_updates _ _ _ _ _ _ tagging
           [] ["gold"; "broken"; "traveller"] anyContext
           ["gold"] ["traveller"] "broken" ["gold"]
           [ {| requiresProfileUpdate := true; enrichment := "gold" |} ]).
  - reflexivity.
  - reflexivity.
  - reflexivity.
Defined.

Lemma failing_detector_rejects_the_enrichment_witness :
  exists e',
    In (Throw e')
       [ behavioralPatternDetect taggingWithoutPropensity ["traveller"] ["gold"];
         preferenceInferenceDetect taggingWithoutPropensity ["traveller"] ["gold"];
         lifecycleStageDetect taggingWithoutPropensity ["traveller"] ["gold"];
         propensityModelDetect taggingWithoutPropensity ["traveller"] ["gold"] ] /\
    enrichProfileInRealTime taggingWithoutPropensity ["gold"] ["traveller"] anyContext
      = (["gold"], Throw e').
Proof.
  apply (failing_detector_rejects_the_enrichment _ _ _ _ _ _
           taggingWithoutPropensity ["gold"] ["traveller"] ["traveller"]
           anyContext (OtherError "model unavailable")).
  - reflexivity.
  - right. right. right. left. reflexivity.
Defined.
